(** * addUpTo.js: summation by a loop and by the closed form, timed and compared

    The script works on JavaScript Numbers, which are IEEE 754 binary64
    values.  They are embedded as the Standard Library's [spec_float] with
    precision 53 and maximal exponent 1024; every arithmetic operator of the
    source is the correctly rounded operation on that type.

    The timer, the console and entry into a timed function are effects on an
    explicit [World]. *)

From Stdlib Require Import ZArith List Bool Lia String Ascii Sorting.Sorted.
From Stdlib Require Import Floats.SpecFloat.
Import ListNotations.

Local Open Scope Z_scope.

(** ** Numbers *)

Module Num.

Definition prec : Z := 53.
Definition emax : Z := 1024.

Definition number : Type := spec_float.

(** A numeric literal written as an integer: the nearest binary64 value. *)
Definition of_Z (z : Z) : number := binary_normalize prec emax z 0 false.

Definition add : number -> number -> number := SFadd prec emax.
Definition sub : number -> number -> number := SFsub prec emax.
Definition mul : number -> number -> number := SFmul prec emax.
Definition div : number -> number -> number := SFdiv prec emax.

(** The relational operators; every comparison with NaN is false. *)
Definition leb : number -> number -> bool := SFleb.
Definition ltb : number -> number -> bool := SFltb.
Definition gtb (x y : number) : bool := SFltb y x.

(** [===] and [!==] on two Numbers. *)
Definition strict_eq : number -> number -> bool := SFeqb.
Definition strict_neq (x y : number) : bool := negb (SFeqb x y).

(** [Math.abs]. *)
Definition abs : number -> number := SFabs.

(** A well-formed binary64 value: canonical mantissa, exponent in range. *)
Definition valid : number -> bool := valid_binary prec emax.

Definition is_finite (x : number) : bool :=
  match x with
  | S754_zero _ | S754_finite _ _ _ => true
  | _ => false
  end.

(** The exact value of a Number when that value is an integer. *)
Definition to_Z (x : number) : option Z :=
  match x with
  | S754_zero _ => Some 0
  | S754_finite s m e =>
      if 0 <=? e then Some (cond_Zopp s (Zpos m * 2 ^ e))
      else if Zpos m mod 2 ^ (- e) =? 0
           then Some (cond_Zopp s (Zpos m / 2 ^ (- e)))
           else None
  | _ => None
  end.

(** [Number.MAX_SAFE_INTEGER], 2^53 - 1. *)
Definition MAX_SAFE_INTEGER : Z := 9007199254740991.

End Num.

Import Num.

Declare Scope num_scope.
Delimit Scope num_scope with num.
Bind Scope num_scope with number.
Infix "+" := add : num_scope.
Infix "-" := sub : num_scope.
Infix "*" := mul : num_scope.
Infix "/" := div : num_scope.
Infix "<=?" := leb : num_scope.
Infix ">?" := gtb : num_scope.
Infix "===" := strict_eq (at level 70) : num_scope.
Infix "!==" := strict_neq (at level 70) : num_scope.

(** ** The two strategies *)

(** [TESTED_VALUES], the literals of the source in their order. *)
Definition TESTED_VALUES_Z : list Z :=
  [1; 10; 100; 1000; 10000; 100000; 1000000; 10000000; 100000000; 1000000000;
   9000000000].

Definition TESTED_VALUES : list number := map of_Z TESTED_VALUES_Z.

(** The [for] loop of [sumIterative]: the state is [i] and [total].  The
    loop does not end on every Number (at 2^53 the increment is absorbed by
    rounding), so the recursion is on a step budget and [None] stands for a
    budget that ran out. *)
Fixpoint sumIterative_loop (fuel : nat) (n i total : number) : option number :=
  match fuel with
  | O => None
  | S fuel' =>
      if (i <=? n)%num
      then sumIterative_loop fuel' n (i + of_Z 1)%num (total + i)%num
      else Some total
  end.

Definition sumIterative (fuel : nat) (n : number) : option number :=
  sumIterative_loop fuel n (of_Z 1) (of_Z 0).

Definition sumFormula (n : number) : number :=
  ((n * (n + of_Z 1)) / of_Z 2)%num.

(** ** [toFixed(6)] and the way back to a Number

    [Number.prototype.toFixed] returns a string.  The script never prints
    that string: it compares it with [0] and hands it to [Math.abs], and both
    convert it back to a Number.  [FixedString] is the string by its
    contents. *)
Inductive FixedString : Type :=
| FsNaN                              (* the text NaN *)
| FsInfinity (neg : bool)            (* Infinity or -Infinity *)
| FsToString (x : number)            (* magnitude 10^21 and up: the text of [x] itself *)
| FsDecimal (neg : bool) (n : Z).    (* sign, then the digits of [n] with a
                                        point before the last six *)

(** The integer [n] for which [n / 10^6] is nearest to [m * 2^e]; the larger
    one when two are equally near. *)
Definition toFixed_digits (m : positive) (e : Z) : Z :=
  if 0 <=? e then Zpos m * 2 ^ e * 1000000
  else (2 * (Zpos m * 1000000) + 2 ^ (- e)) / (2 * 2 ^ (- e)).

Definition at_least_1e21 (m : positive) (e : Z) : bool :=
  if 0 <=? e then 10 ^ 21 <=? Zpos m * 2 ^ e
  else 10 ^ 21 * 2 ^ (- e) <=? Zpos m.

Definition toFixed6 (x : number) : FixedString :=
  match x with
  | S754_nan => FsNaN
  | S754_infinity s => FsInfinity s
  | S754_zero _ => FsDecimal false 0
  | S754_finite s m e =>
      if at_least_1e21 m e then FsToString x
      else FsDecimal s (toFixed_digits m e)
  end.

(** The Number a [toFixed] string converts to: for a decimal, the binary64
    value nearest to [n / 10^6]. *)
Definition StringToNumber (t : FixedString) : number :=
  match t with
  | FsNaN => S754_nan
  | FsInfinity s => S754_infinity s
  | FsToString x => x
  | FsDecimal neg n =>
      if n =? 0 then S754_zero neg
      else SFdiv prec emax (S754_finite neg (Z.to_pos n) 0)
                           (S754_finite false 1000000 0)
  end.

(** Lines 65 and 66 of the callback. *)
Definition timeDifference (iterativeTime formulaTime : number) : FixedString :=
  toFixed6 (iterativeTime - formulaTime)%num.

Definition fasterMethod (timeDifference : FixedString) : string :=
  if (StringToNumber timeDifference >? of_Z 0)%num then "Formula" else "Iterative".

(** ** Effects: the timer, the console, calls *)

Inductive Event : Type :=
| EvNow (t : number)       (* [performance.now()] answered [t] *)
| EvCall (name : string)   (* the function of that name was entered *)
| EvLog (line : string).   (* [console.log(line)] *)

Record World : Type := mkWorld {
  clock : nat -> number;   (* the answers the timer gives, in order *)
  reads : nat;             (* how many of them were taken *)
  trace : list Event       (* what happened so far, oldest first *)
}.

Definition ticked (w : World) : World :=
  mkWorld (clock w) (S (reads w)) (trace w ++ [EvNow (clock w (reads w))]).

Definition logged (ev : Event) (w : World) : World :=
  mkWorld (clock w) (reads w) (trace w ++ [ev]).

(** How often the function [name] was entered in a trace. *)
Fixpoint calls (name : string) (tr : list Event) : nat :=
  match tr with
  | [] => O
  | EvCall f :: tr' =>
      if String.eqb f name then S (calls name tr') else calls name tr'
  | _ :: tr' => calls name tr'
  end.

Definition ESC : string := String "027"%char EmptyString.
Definition LF : string := String "010"%char EmptyString.

Section Script.

(** What a [throw] carries. *)
Variable Exn : Type.

(** The text of a Number inside a template literal. *)
Variable NumberToString : number -> string.

Inductive Outcome (R : Type) : Type :=
| Returned (r : R) (w : World)
| Thrown (e : Exn) (w : World)
| Diverged.

Arguments Returned {R} r w.
Arguments Thrown {R} e w.
Arguments Diverged {R}.

Definition M (R : Type) : Type := World -> Outcome R.

Definition ret {R : Type} (r : R) : M R := fun w => Returned r w.

Definition bind {A B : Type} (c : M A) (k : A -> M B) : M B :=
  fun w =>
    match c w with
    | Returned a w' => k a w'
    | Thrown e w' => Thrown e w'
    | Diverged => Diverged
    end.

Local Notation "x <- c ;; k" := (bind c (fun x => k))
  (at level 61, c at next level, right associativity).
Local Notation "c ;; k" := (bind c (fun _ => k))
  (at level 61, right associativity).

Definition performance_now : M number :=
  fun w => Returned (clock w (reads w)) (ticked w).

Definition console_log (line : string) : M unit :=
  fun w => Returned tt (logged (EvLog line) w).

(** A function value: its [name] property and its body. *)
Record JsFunction (A R : Type) : Type := mkFunction {
  fn_name : string;
  fn_body : A -> M R
}.

Arguments fn_name {A R} _.
Arguments fn_body {A R} _ _ _.

(** [func(...args)].  Entry into the function is recorded on the trace, which
    is how the statements below count calls and order them against timer
    readings and console output. *)
Definition invoke {A R : Type} (func : JsFunction A R) (args : A) : M R :=
  fun w => fn_body func args (logged (EvCall (fn_name func)) w).

Record Measurement (R : Type) : Type := mkMeasurement {
  time : number;
  result : R
}.

Arguments time {R} _.
Arguments result {R} _.

Definition measureExecTime {A R : Type} (func : JsFunction A R) (args : A)
  : M (Measurement R) :=
  start <- performance_now ;;
  result <- invoke func args ;;
  end_ <- performance_now ;;
  ret {| time := ((end_ - start) / of_Z 1000)%num; result := result |}.

Definition sumIterative_fn (fuel : nat) : JsFunction number number :=
  {| fn_name := "sumIterative";
     fn_body := fun n w =>
       match sumIterative fuel n with
       | Some total => Returned total w
       | None => Diverged
       end |}.

Definition sumFormula_fn : JsFunction number number :=
  {| fn_name := "sumFormula";
     fn_body := fun n => ret (sumFormula n) |}.

Definition header_line (N : number) : string :=
  (LF ++ ESC ++ "[36mTESTED VALUE: " ++ NumberToString N ++ ESC ++ "[0m")%string.

Definition difference_line (timeDifference : FixedString) (fasterMethod : string)
  : string :=
  ("Time Difference: " ++ NumberToString (abs (StringToNumber timeDifference))
     ++ " seconds (" ++ fasterMethod ++ " is faster)")%string.

Definition warning_line (iterative formula : number) : string :=
  (ESC ++ "[31mWARNING: Results different! Iterative: "
     ++ NumberToString iterative ++ ", Formula: " ++ NumberToString formula
     ++ ESC ++ "[0m")%string.

Definition consistent_line (iterative : number) : string :=
  (ESC ++ "[32mResults are consistent: " ++ NumberToString iterative
     ++ ESC ++ "[0m")%string.

(** Lines 74 to 82. *)
Definition report_consistency (iterative formula : number) : M unit :=
  if (iterative !== formula)%num
  then console_log (warning_line iterative formula)
  else console_log (consistent_line iterative).

(** The callback handed to [forEach]. *)
Definition forEach_callback (fuel : nat) (N : number) : M unit :=
  console_log (header_line N) ;;
  iterativeResult <- measureExecTime (sumIterative_fn fuel) N ;;
  formulaResult <- measureExecTime sumFormula_fn N ;;
  let timeDifference := timeDifference (time iterativeResult) (time formulaResult) in
  let fasterMethod := fasterMethod timeDifference in
  console_log (difference_line timeDifference fasterMethod) ;;
  report_consistency (result iterativeResult) (result formulaResult).

Fixpoint forEach {A : Type} (l : list A) (callback : A -> M unit) : M unit :=
  match l with
  | [] => ret tt
  | x :: rest => callback x ;; forEach rest callback
  end.

Definition main (fuel : nat) : M unit :=
  forEach TESTED_VALUES (forEach_callback fuel).

End Script.

Arguments Returned {Exn R} r w.
Arguments Thrown {Exn R} e w.
Arguments Diverged {Exn R}.
Arguments ret {Exn R} r _.
Arguments bind {Exn A B} c k _.
Arguments performance_now {Exn} _.
Arguments console_log {Exn} line _.
Arguments mkFunction {Exn A R} fn_name fn_body.
Arguments fn_name {Exn A R} _.
Arguments fn_body {Exn A R} _ _ _.
Arguments invoke {Exn A R} func args _.
Arguments mkMeasurement {R} time result.
Arguments time {R} _.
Arguments result {R} _.
Arguments measureExecTime {Exn A R} func args _.
Arguments sumIterative_fn {Exn} fuel.
Arguments sumFormula_fn {Exn}.
Arguments report_consistency {Exn} NumberToString iterative formula _.
Arguments forEach_callback {Exn} NumberToString fuel N _.
Arguments forEach {Exn A} l callback _.
Arguments main {Exn} NumberToString fuel _.

(** ** Notions used by the statements *)

(** The sum [1 + 2 + ... + n], term by term. *)
Definition sum_range (n : Z) : Z :=
  fold_left Z.add (map Z.of_nat (seq 1 (Z.to_nat n))) 0.

(** The closed form over the integers. *)
Definition triangle (k : Z) : Z := k * (k + 1) / 2.

(** Mantissa and exponent of the binary64 value of a positive integer [V]
    that needs no rounding. *)
Definition mant (V : Z) : Z := Z.shiftl V (52 - Z.log2 V).
Definition expo (V : Z) : Z := Z.log2 V - 52.

Definition rep (s : bool) (V : Z) : number :=
  S754_finite s (Z.to_pos (mant V)) (expo V).

(** [V] is an integer of at most 53 significant bits. *)
Definition representable (V : Z) : Prop :=
  exists K j, 0 < K < 2 ^ 53 /\ 0 <= j /\ V = K * 2 ^ j.

(** [x] is a zero, a finite number or an infinity with sign bit [s]. *)
Definition signed (s : bool) (x : number) : Prop :=
  match x with
  | S754_zero s' | S754_infinity s' | S754_finite s' _ _ => s' = s
  | S754_nan => False
  end.

Definition nonzero (x : number) : Prop :=
  match x with
  | S754_finite _ _ _ | S754_infinity _ => True
  | _ => False
  end.

(** [x >= 0] holds. *)
Definition nonneg (x : number) : Prop :=
  match x with
  | S754_zero _ => True
  | S754_finite s _ _ | S754_infinity s => s = false
  | S754_nan => False
  end.

(** [x > 0] does not hold. *)
Definition not_positive (x : number) : Prop :=
  match x with
  | S754_zero _ | S754_nan => True
  | S754_finite s _ _ | S754_infinity s => s = true
  end.

(** A mantissa brought to the smaller of two exponents, with its sign. *)
Definition aligned (s : bool) (m : positive) (e ez : Z) : Z :=
  cond_Zopp s (Zpos (fst (shl_align m e ez))).

(** [x] is positive and at least 0.0000005, so that its rounding to six
    decimals is not zero. *)
Definition at_least_half_micro (x : number) : bool :=
  match x with
  | S754_finite false m e =>
      if 0 <=? e then true else 2 ^ (- e) <=? 2000000 * Zpos m
  | S754_infinity false => true
  | _ => false
  end.

(** [s] occurs inside [t]. *)
Definition includes (s t : string) : Prop :=
  exists pre post, t = (pre ++ s ++ post)%string.

(** The events of one tested value, in the order they happen. *)
Inductive block_of (header : string) : list Event -> Prop :=
| block_intro (t0 t1 t2 t3 : number) (difference verdict : string) :
    block_of header
      [EvLog header;
       EvNow t0; EvCall "sumIterative"; EvNow t1;
       EvNow t2; EvCall "sumFormula"; EvNow t3;
       EvLog difference; EvLog verdict].

(** A trace made of one block per header, in the order of the headers. *)
Inductive blocks : list string -> list Event -> Prop :=
| blocks_nil : blocks [] []
| blocks_cons (h : string) (hs : list string) (b rest : list Event) :
    block_of h b -> blocks hs rest -> blocks (h :: hs) (b ++ rest).

(** The events of one tested value, from the timer readings and the two
    results. *)
Definition block_events (NumberToString : number -> string)
  (w : World) (N a : number) : list Event :=
  let t0 := clock w (reads w) in
  let t1 := clock w (1 + reads w)%nat in
  let t2 := clock w (2 + reads w)%nat in
  let t3 := clock w (3 + reads w)%nat in
  let td := timeDifference ((t1 - t0) / of_Z 1000)%num ((t3 - t2) / of_Z 1000)%num in
  [EvLog (header_line NumberToString N);
   EvNow t0; EvCall "sumIterative"; EvNow t1;
   EvNow t2; EvCall "sumFormula"; EvNow t3;
   EvLog (difference_line NumberToString td (fasterMethod td));
   EvLog (if (a !== sumFormula N)%num
          then warning_line NumberToString a (sumFormula N)
          else consistent_line NumberToString a)].

(** A timer that answers 0, 1, 2, ... milliseconds, an empty initial world
    and a number printer, to run the script on. *)
Definition clock0 : nat -> number := fun k => of_Z (Z.of_nat k).
Definition world0 : World := mkWorld clock0 0 [].
Definition text0 : number -> string := fun _ => "n"%string.

(** How many lines a trace holds. *)
Fixpoint logs (tr : list Event) : nat :=
  match tr with
  | [] => O
  | EvLog _ :: tr' => S (logs tr')
  | _ :: tr' => logs tr'
  end.

(** * Facts about binary64 arithmetic *)

(** Arithmetic on the exponent bounds of binary64. *)
Ltac fexp_arith := unfold fexp, SpecFloat.emin, prec, emax in *; lia.

(** ** Digits and right shifts *)

Lemma digits2_pos_size (p : positive) : digits2_pos p = Pos.size p.
Proof. induction p; simpl; congruence. Qed.

Lemma Zdigits2_log2 (p : positive) : Zdigits2 (Zpos p) = Z.log2 (Zpos p) + 1.
Proof.
  unfold Zdigits2. rewrite digits2_pos_size.
  destruct p; simpl; try reflexivity; rewrite Pos.add_1_r; reflexivity.
Qed.

Lemma iter_pos_nat {A} (f : A -> A) (n : positive) (x : A) :
  iter_pos f n x = Nat.iter (Pos.to_nat n) f x.
Proof.
  revert x; induction n as [n IH|n IH|]; intro x; cbn [iter_pos].
  - rewrite !IH, Pos2Nat.inj_xI.
    replace (S (2 * Pos.to_nat n))%nat with (Pos.to_nat n + (Pos.to_nat n + 1))%nat by lia.
    rewrite !Nat.iter_add. reflexivity.
  - rewrite !IH, Pos2Nat.inj_xO.
    replace (2 * Pos.to_nat n)%nat with (Pos.to_nat n + Pos.to_nat n)%nat by lia.
    rewrite Nat.iter_add. reflexivity.
  - reflexivity.
Qed.

Lemma shr_1_m (mrs : shr_record) :
  0 <= shr_m mrs -> shr_m (shr_1 mrs) = shr_m mrs / 2.
Proof.
  destruct mrs as [m r s]; simpl; intros Hm.
  destruct m as [|p|p]; try lia.
  - reflexivity.
  - destruct p; simpl shr_m.
    + rewrite Pos2Z.inj_xI. apply Z.div_unique with 1; lia.
    + rewrite Pos2Z.inj_xO. apply Z.div_unique with 0; lia.
    + reflexivity.
Qed.

Lemma shr_1_exact (m : Z) :
  0 <= m -> m mod 2 = 0 ->
  shr_1 (Build_shr_record m false false) = Build_shr_record (m / 2) false false.
Proof.
  intros Hm Hev. destruct m as [|p|p]; try lia.
  - reflexivity.
  - destruct p; simpl.
    + rewrite Pos2Z.inj_xI in Hev. exfalso.
      rewrite Z.add_comm, Z.mul_comm, Z.mod_add in Hev by lia. discriminate.
    + f_equal. rewrite Pos2Z.inj_xO. apply Z.div_unique with 0; lia.
    + discriminate.
Qed.

Lemma shr_iter_m (k : nat) (mrs : shr_record) :
  0 <= shr_m mrs ->
  shr_m (Nat.iter k shr_1 mrs) = shr_m mrs / 2 ^ Z.of_nat k.
Proof.
  induction k as [|k IH]; intro Hm.
  - simpl. now rewrite Z.div_1_r.
  - rewrite Nat2Z.inj_succ, Z.pow_succ_r by lia. simpl Nat.iter.
    rewrite shr_1_m.
    + rewrite IH by assumption. rewrite Z.div_div by lia. f_equal; lia.
    + rewrite IH by assumption. apply Z.div_pos; lia.
Qed.

Lemma shr_iter_exact (k : nat) (m : Z) :
  0 <= m -> m mod 2 ^ Z.of_nat k = 0 ->
  Nat.iter k shr_1 (Build_shr_record m false false)
  = Build_shr_record (m / 2 ^ Z.of_nat k) false false.
Proof.
  revert m; induction k as [|k IH]; intros m Hm Hdiv.
  - simpl. now rewrite Z.div_1_r.
  - rewrite Nat2Z.inj_succ, Z.pow_succ_r in * by lia.
    rewrite Nat.iter_succ_r.
    assert (Hm2 : m mod 2 = 0).
    { apply Z.mod_divide; [lia|]. apply Z.mod_divide in Hdiv; [|lia].
      destruct Hdiv as [c Hc]. exists (c * 2 ^ Z.of_nat k). lia. }
    rewrite shr_1_exact by assumption.
    rewrite IH.
    + rewrite Z.div_div by lia. reflexivity.
    + apply Z.div_pos; lia.
    + apply Z.mod_divide in Hdiv; [|lia]. destruct Hdiv as [c Hc].
      apply Z.mod_divide; [lia|]. exists c.
      subst m. replace (c * (2 * 2 ^ Z.of_nat k)) with (c * 2 ^ Z.of_nat k * 2) by lia.
      now rewrite Z.div_mul by lia.
Qed.

Lemma shr_exact (m e n : Z) :
  0 <= n -> 0 <= m -> m mod 2 ^ n = 0 ->
  shr (Build_shr_record m false false) e n
  = (Build_shr_record (m / 2 ^ n) false false, e + n).
Proof.
  intros Hn Hm Hdiv. destruct n as [|p|p]; try lia.
  - simpl. now rewrite Z.div_1_r, Z.add_0_r.
  - unfold shr. rewrite iter_pos_nat.
    rewrite <- (positive_nat_Z p) in Hdiv |- * at 1.
    rewrite shr_iter_exact by assumption.
    now rewrite positive_nat_Z.
Qed.

(** ** Rounding a value that needs none

    An integer [V] of at most 53 significant bits, presented as a mantissa
    [M] at a non-positive exponent [e], is rounded to [rep s V] unchanged. *)

Lemma fexp_normal (x : Z) : -1021 <= x -> fexp prec emax x = x - 53.
Proof. intros H. fexp_arith. Qed.

Lemma representable_divide (V : Z) :
  0 < V -> representable V -> 0 <= expo V -> (2 ^ expo V | V).
Proof.
  intros HV (K & j & HK & Hj & ->) He. unfold expo in *.
  rewrite Z.log2_mul_pow2 in * by lia.
  assert (Z.log2 K < 53) by (apply Z.log2_lt_pow2; lia).
  exists (K * 2 ^ (j - (j + Z.log2 K - 52))).
  rewrite <- Z.mul_assoc, <- Z.pow_add_r by lia. do 2 f_equal. lia.
Qed.

Lemma mant_spec (V : Z) :
  0 < V -> representable V ->
  (expo V <= 0 -> mant V = V * 2 ^ (- expo V)) /\
  (0 <= expo V -> V = mant V * 2 ^ expo V).
Proof.
  intros HV HR. unfold mant. split; intro He.
  - rewrite Z.shiftl_mul_pow2 by (unfold expo in *; lia).
    do 2 f_equal. unfold expo; lia.
  - replace (52 - Z.log2 V) with (- expo V) by (unfold expo; lia).
    rewrite Z.shiftl_opp_r, Z.shiftr_div_pow2 by assumption.
    destruct (representable_divide V HV HR He) as [c Hc].
    rewrite Hc at 2. rewrite Z.div_mul by lia. assumption.
Qed.

Lemma mant_log2 (V : Z) : 0 < V -> Z.log2 (mant V) = 52.
Proof.
  intros HV. unfold mant.
  destruct (Z.le_gt_cases (Z.log2 V) 52) as [H|H].
  - rewrite Z.log2_shiftl by lia. lia.
  - replace (52 - Z.log2 V) with (- (Z.log2 V - 52)) by lia.
    rewrite Z.shiftl_opp_r, Z.log2_shiftr by lia. lia.
Qed.

Lemma mant_pos (V : Z) : 0 < V -> 0 < mant V.
Proof.
  intros HV. destruct (Z.lt_ge_cases 0 (mant V)) as [H|H]; [assumption|].
  pose proof (mant_log2 V HV) as HL.
  rewrite Z.log2_nonpos in HL by lia. discriminate.
Qed.

Lemma round_aux_exact (s : bool) (M : positive) (e V : Z) :
  0 < V -> representable V -> expo V <= 971 ->
  e <= 0 -> e <= expo V -> Zpos M = V * 2 ^ (- e) ->
  binary_round_aux prec emax s (Zpos M) e loc_Exact = rep s V.
Proof.
  intros HV HR Hmax He Het HM.
  pose proof (Z.log2_nonneg V) as HL0.
  pose proof (mant_pos V HV) as Hmp.
  pose proof (mant_log2 V HV) as Hml.
  destruct (mant_spec V HV HR) as [Hlo Hhi].
  assert (HlogM : Z.log2 (Zpos M) = Z.log2 V - e).
  { rewrite HM, Z.log2_mul_pow2 by lia. lia. }
  assert (Hdiv : Zpos M mod 2 ^ (expo V - e) = 0 /\
                 Zpos M / 2 ^ (expo V - e) = mant V).
  { destruct (Z.le_gt_cases (expo V) 0) as [Hc|Hc].
    - rewrite HM, (Hlo Hc).
      replace (2 ^ (- e)) with (2 ^ (- expo V) * 2 ^ (expo V - e))
        by (rewrite <- Z.pow_add_r by lia; f_equal; lia).
      rewrite Z.mul_assoc. split.
      + apply Z.mod_mul. lia.
      + apply Z.div_mul. lia.
    - rewrite HM. rewrite (Hhi ltac:(lia)) at 1 3.
      rewrite <- Z.mul_assoc, <- Z.pow_add_r by lia.
      replace (expo V + - e) with (expo V - e) by lia. split.
      + apply Z.mod_mul. lia.
      + apply Z.div_mul. lia. }
  destruct Hdiv as [Hmod Hquo].
  unfold binary_round_aux, shr_fexp.
  rewrite Zdigits2_log2, HlogM.
  rewrite fexp_normal by lia.
  replace (Z.log2 V - e + 1 + e - 53 - e) with (expo V - e) by (unfold expo; lia).
  cbn [shr_record_of_loc].
  rewrite shr_exact by lia.
  rewrite Hquo. cbn [shr_m loc_of_shr_record round_nearest_even].
  replace (e + (expo V - e)) with (expo V) by lia.
  destruct (mant V) as [|p|p] eqn:Hp; try lia.
  rewrite Zdigits2_log2, Hml.
  rewrite fexp_normal by (unfold expo; lia).
  replace (52 + 1 + expo V - 53 - expo V) with 0 by lia.
  cbn [shr_record_of_loc shr shr_m].
  replace (expo V <=? emax - prec) with true
    by (symmetry; apply Z.leb_le; unfold emax, prec; lia).
  unfold rep. rewrite Hp. reflexivity.
Qed.

Lemma shl_align_spec (m : positive) (e e' : Z) :
  e' <= e ->
  Zpos (fst (shl_align m e e')) = Zpos m * 2 ^ (e - e') /\
  snd (shl_align m e e') = e'.
Proof.
  intros H. unfold shl_align.
  destruct (e' - e) as [|d|d] eqn:Hd; try lia.
  - replace (e - e') with 0 by lia. cbn. split; lia.
  - cbn [fst snd]. split; [|reflexivity].
    replace (e - e') with (Zpos d) by lia.
    change (Pos.iter xO m d) with (shift_pos d m).
    rewrite shift_pos_correct, Z.mul_comm. reflexivity.
Qed.

Lemma shl_align_id (m : positive) (e e' : Z) :
  e <= e' -> shl_align m e e' = (m, e).
Proof.
  intros H. unfold shl_align. destruct (e' - e) eqn:Hd; try lia; reflexivity.
Qed.

Lemma round_exact (s : bool) (M : positive) (e V : Z) :
  0 < V -> representable V -> expo V <= 971 ->
  e <= 0 -> Zpos M = V * 2 ^ (- e) ->
  binary_round prec emax s M e = rep s V.
Proof.
  intros HV HR Hmax He HM.
  pose proof (Z.log2_nonneg V) as HL0.
  unfold binary_round.
  change (Zpos (digits2_pos M)) with (Zdigits2 (Zpos M)).
  rewrite Zdigits2_log2, HM, Z.log2_mul_pow2 by lia.
  rewrite fexp_normal by lia.
  replace (- e + Z.log2 V + 1 + e - 53) with (expo V) by (unfold expo; lia).
  destruct (Z.le_gt_cases e (expo V)) as [Hc|Hc].
  - rewrite shl_align_id by assumption.
    now apply round_aux_exact.
  - destruct (shl_align_spec M e (expo V) ltac:(lia)) as [Hf Hs].
    destruct (shl_align M e (expo V)) as [mz ez]. cbn [fst snd] in *. subst ez.
    apply round_aux_exact; try assumption; try lia.
    rewrite Hf, HM, <- Z.mul_assoc, <- Z.pow_add_r by lia.
    do 2 f_equal. lia.
Qed.

(** ** Sums, products and order of integers *)

Lemma representable_small (V : Z) : 0 < V < 2 ^ 53 -> representable V.
Proof. intros H. exists V, 0. rewrite Z.mul_1_r. repeat split; lia. Qed.

Lemma representable_double (V : Z) : representable V -> representable (2 * V).
Proof.
  intros (K & j & HK & Hj & ->). exists K, (j + 1).
  rewrite Z.pow_add_r by lia. repeat split; lia.
Qed.

Lemma expo_bound (V : Z) : 0 < V < 2 ^ 1024 -> expo V <= 971.
Proof.
  intros H. unfold expo.
  assert (Z.log2 V < 1024) by (apply Z.log2_lt_pow2; lia). lia.
Qed.

Lemma expo_small (V : Z) : 0 < V < 2 ^ 53 -> expo V <= 0.
Proof.
  intros H. unfold expo.
  assert (Z.log2 V < 53) by (apply Z.log2_lt_pow2; lia). lia.
Qed.

Lemma of_Z_rep (V : Z) :
  0 < V < 2 ^ 1024 -> representable V -> of_Z V = rep false V.
Proof.
  intros HV HR. unfold of_Z. destruct V as [|p|p]; try lia.
  cbn [binary_normalize]. apply round_exact; try assumption; try lia.
  now apply expo_bound.
Qed.

Lemma rep_mant (V : Z) :
  0 < V < 2 ^ 53 -> Zpos (Z.to_pos (mant V)) = V * 2 ^ (- expo V).
Proof.
  intros H. rewrite Z2Pos.id by (apply mant_pos; lia).
  apply mant_spec; [lia|now apply representable_small|now apply expo_small].
Qed.

Lemma add_rep (a b : Z) :
  0 < a < 2 ^ 53 -> 0 < b < 2 ^ 53 -> representable (a + b) ->
  SFadd prec emax (rep false a) (rep false b) = rep false (a + b).
Proof.
  intros Ha Hb HR.
  pose proof (expo_small a Ha) as Hea. pose proof (expo_small b Hb) as Heb.
  unfold rep at 1 2. cbn [SFadd cond_Zopp].
  set (ez := Z.min (expo a) (expo b)).
  destruct (shl_align_spec (Z.to_pos (mant a)) (expo a) ez ltac:(lia)) as [Hfa _].
  destruct (shl_align_spec (Z.to_pos (mant b)) (expo b) ez ltac:(lia)) as [Hfb _].
  rewrite rep_mant in Hfa, Hfb by assumption.
  rewrite <- Z.mul_assoc, <- Z.pow_add_r in Hfa, Hfb by lia.
  replace (- expo a + (expo a - ez)) with (- ez) in Hfa by lia.
  replace (- expo b + (expo b - ez)) with (- ez) in Hfb by lia.
  rewrite <- Pos2Z.inj_add. cbn [binary_normalize].
  apply round_exact; try assumption; try lia.
  apply expo_bound. split; [lia|].
  apply Z.lt_trans with (2 ^ 54); [|reflexivity].
  change (2 ^ 54) with (2 ^ 53 + 2 ^ 53). lia.
Qed.

Lemma mul_rep (a b : Z) :
  0 < a < 2 ^ 53 -> 0 < b < 2 ^ 53 -> representable (a * b) ->
  SFmul prec emax (rep false a) (rep false b) = rep false (a * b).
Proof.
  intros Ha Hb HR.
  pose proof (expo_small a Ha) as Hea. pose proof (expo_small b Hb) as Heb.
  unfold rep at 1 2. cbn [SFmul xorb].
  apply round_aux_exact; try assumption; try lia.
  - apply expo_bound. split; [lia|].
    apply Z.lt_trans with (2 ^ 53 * 2 ^ 53); [|reflexivity].
    apply Z.mul_lt_mono_nonneg; lia.
  - pose proof (Z.log2_mul_below a b ltac:(lia) ltac:(lia)).
    unfold expo in *. lia.
  - rewrite Pos2Z.inj_mul, !rep_mant by assumption.
    replace (- (expo a + expo b)) with (- expo a + - expo b) by lia.
    rewrite Z.pow_add_r by lia. ring.
Qed.

Lemma mul_compare_r (n m p : Z) : 0 < p -> (n * p ?= m * p) = (n ?= m).
Proof.
  intros Hp. destruct (Z.compare_spec n m) as [H|H|H].
  - subst. apply Z.compare_refl.
  - apply Z.compare_lt_iff. nia.
  - apply Z.compare_gt_iff. nia.
Qed.

Lemma compare_rep (a b : Z) :
  0 < a -> representable a -> 0 < b -> representable b ->
  SFcompare (rep false a) (rep false b) = Some (a ?= b).
Proof.
  intros Ha HRa Hb HRb. unfold rep. cbn [SFcompare]. f_equal.
  pose proof (mant_pos a Ha) as Hma. pose proof (mant_pos b Hb) as Hmb.
  destruct (Z.compare_spec (expo a) (expo b)) as [He|He|He].
  - change (Pos.compare_cont Eq (Z.to_pos (mant a)) (Z.to_pos (mant b)))
      with (Zpos (Z.to_pos (mant a)) ?= Zpos (Z.to_pos (mant b))).
    rewrite !Z2Pos.id by assumption.
    destruct (mant_spec a Ha HRa) as [Hlo Hhi].
    destruct (mant_spec b Hb HRb) as [Hlo' Hhi'].
    destruct (Z.le_gt_cases (expo a) 0) as [Hc|Hc].
    + rewrite Hlo, Hlo', <- He by lia.
      apply mul_compare_r. apply Z.pow_pos_nonneg; lia.
    + rewrite (Hhi ltac:(lia)) at 2. rewrite (Hhi' ltac:(lia)) at 2.
      rewrite <- He. symmetry.
      apply mul_compare_r. apply Z.pow_pos_nonneg; lia.
  - symmetry. apply Z.compare_lt_iff. apply Z.log2_lt_cancel.
    unfold expo in He. lia.
  - symmetry. apply Z.compare_gt_iff. apply Z.log2_lt_cancel.
    unfold expo in He. lia.
Qed.

(** ** Division by two *)

Lemma round_aux_normal (s : bool) (m : positive) (e : Z) :
  Z.log2 (Zpos m) = 52 -> -1074 <= e <= 971 ->
  binary_round_aux prec emax s (Zpos m) e loc_Exact = S754_finite s m e.
Proof.
  intros Hl He. unfold binary_round_aux, shr_fexp.
  rewrite Zdigits2_log2, Hl.
  assert (Hf : fexp prec emax (52 + 1 + e) - e = 0)
    by fexp_arith.
  rewrite Hf. cbn [shr_record_of_loc shr shr_m loc_of_shr_record round_nearest_even].
  rewrite Zdigits2_log2, Hl, Hf. cbn [shr_record_of_loc shr shr_m].
  replace (e <=? emax - prec) with true
    by (symmetry; apply Z.leb_le; unfold emax, prec; lia).
  reflexivity.
Qed.

Lemma round_aux_double (s : bool) (m : positive) (e : Z) :
  Z.log2 (Zpos m) = 52 -> -1075 <= e <= 970 ->
  binary_round_aux prec emax s (Zpos m~0) e loc_Exact = S754_finite s m (e + 1).
Proof.
  intros Hl He. unfold binary_round_aux, shr_fexp.
  rewrite Zdigits2_log2.
  replace (Z.log2 (Zpos m~0)) with 53
    by (rewrite Pos2Z.inj_xO, Z.log2_double by lia; lia).
  replace (fexp prec emax (53 + 1 + e) - e) with 1
    by fexp_arith.
  cbn [shr_record_of_loc shr iter_pos shr_1 orb shr_m loc_of_shr_record round_nearest_even].
  rewrite Zdigits2_log2, Hl.
  replace (fexp prec emax (52 + 1 + (e + 1)) - (e + 1)) with 0
    by fexp_arith.
  cbn [shr_record_of_loc shr shr_m].
  replace (e + 1 <=? emax - prec) with true
    by (symmetry; apply Z.leb_le; unfold emax, prec; lia).
  reflexivity.
Qed.

Lemma div_two (s : bool) (m : positive) (e : Z) :
  Z.log2 (Zpos m) = 52 -> -1072 <= e <= 971 ->
  SFdiv prec emax (S754_finite s m e) (of_Z 2) = S754_finite s m (e - 1).
Proof.
  intros Hl He.
  change (of_Z 2) with (S754_finite false 4503599627370496 (-51)).
  cbn [SFdiv]. unfold SFdiv_core_binary.
  rewrite !Zdigits2_log2, Hl.
  change (Z.log2 (Zpos 4503599627370496)) with 52.
  replace (Z.min (fexp prec emax (52 + 1 + e - (52 + 1 + -51))) (e - -51))
    with (e - 2) by fexp_arith.
  replace (e - -51 - (e - 2)) with 53 by lia.
  replace (Z.div_eucl (Z.shiftl (Zpos m) 53) (Zpos 4503599627370496))
    with (Zpos m~0, 0).
  2:{ pose proof (Z.div_eucl_eq (Z.shiftl (Zpos m) 53) 4503599627370496 ltac:(lia)) as Heq.
      pose proof (Z.mod_pos_bound (Z.shiftl (Zpos m) 53) 4503599627370496 ltac:(lia)) as Hb.
      unfold Z.modulo in Hb.
      destruct (Z.div_eucl (Z.shiftl (Zpos m) 53) 4503599627370496) as [q r].
      rewrite Z.shiftl_mul_pow2 in Heq by lia.
      change (2 ^ 53) with (4503599627370496 * 2) in Heq.
      assert (q = 2 * Zpos m) by nia. assert (r = 0) by nia. subst.
      reflexivity. }
  change (new_location (Zpos 4503599627370496) 0) with loc_Exact.
  cbn [xorb]. rewrite xorb_false_r.
  rewrite round_aux_double by lia. f_equal. lia.
Qed.

Lemma rep_half (V : Z) :
  0 < V -> representable V -> V mod 2 = 0 -> -1072 <= expo V <= 971 ->
  SFdiv prec emax (rep false V) (of_Z 2) = rep false (V / 2).
Proof.
  intros HV HR Hev He.
  assert (Hc : V = 2 * (V / 2)) by (apply Z.div_exact; lia).
  assert (Hh : 0 < V / 2) by lia.
  unfold rep at 1. rewrite div_two; try assumption.
  2:{ rewrite Z2Pos.id by now apply mant_pos. now apply mant_log2. }
  unfold rep.
  assert (Hlg : Z.log2 V = Z.log2 (V / 2) + 1).
  { rewrite Hc at 1. rewrite Z.log2_double by lia. lia. }
  f_equal.
  - f_equal. unfold mant. rewrite Hlg.
    rewrite Hc at 1.
    destruct (Z.le_gt_cases (Z.log2 (V / 2) + 1) 52) as [Hk|Hk].
    + rewrite !Z.shiftl_mul_pow2 by lia.
      replace (52 - Z.log2 (V / 2)) with ((52 - (Z.log2 (V / 2) + 1)) + 1) by lia.
      rewrite (Z.pow_add_r _ _ 1) by lia. lia.
    + replace (52 - (Z.log2 (V / 2) + 1)) with (- (Z.log2 (V / 2) - 51)) by lia.
      replace (52 - Z.log2 (V / 2)) with (- (Z.log2 (V / 2) - 52)) by lia.
      rewrite !Z.shiftl_opp_r, !Z.shiftr_div_pow2 by lia.
      replace (Z.log2 (V / 2) - 51) with (1 + (Z.log2 (V / 2) - 52)) by lia.
      rewrite Z.pow_add_r, <- Z.div_div by lia.
      rewrite Z.mul_comm, Z.div_mul by lia. reflexivity.
  - unfold expo. lia.
Qed.

(** ** The operators on integers up to 2^53 *)

Lemma representable_safe (V : Z) : 0 < V <= 2 ^ 53 -> representable V.
Proof.
  intros H. destruct (Z.eq_dec V (2 ^ 53)) as [->|Hne].
  - exists 1, 53. repeat split; lia.
  - apply representable_small. lia.
Qed.

Lemma of_Z_small (V : Z) : 0 < V <= 2 ^ 53 -> of_Z V = rep false V.
Proof.
  intros H. apply of_Z_rep.
  - split; [lia|]. apply Z.le_lt_trans with (2 ^ 53); [lia|reflexivity].
  - now apply representable_safe.
Qed.

Lemma add_of_Z (a b : Z) :
  0 <= a < 2 ^ 53 -> 0 <= b < 2 ^ 53 -> a + b <= 2 ^ 53 ->
  add (of_Z a) (of_Z b) = of_Z (a + b).
Proof.
  intros Ha Hb Hab. unfold add.
  destruct (Z.eq_dec a 0) as [->|Ha0]; [|destruct (Z.eq_dec b 0) as [->|Hb0]].
  - rewrite Z.add_0_l. destruct (Z.eq_dec b 0) as [->|Hb0]; [reflexivity|].
    rewrite (of_Z_small b) by lia. reflexivity.
  - rewrite Z.add_0_r, (of_Z_small a) by lia. reflexivity.
  - rewrite (of_Z_small a), (of_Z_small b), (of_Z_small (a + b)) by lia.
    apply add_rep; try lia. apply representable_safe. lia.
Qed.

Lemma leb_of_Z (a b : Z) :
  0 <= a <= 2 ^ 53 -> 0 <= b <= 2 ^ 53 -> leb (of_Z a) (of_Z b) = (a <=? b).
Proof.
  intros Ha Hb. unfold leb, SFleb.
  destruct (Z.eq_dec a 0) as [->|Ha0]; [|destruct (Z.eq_dec b 0) as [->|Hb0]].
  - destruct (Z.eq_dec b 0) as [->|Hb0]; [reflexivity|].
    rewrite (of_Z_small b) by lia. cbn.
    symmetry. apply Z.leb_le. lia.
  - rewrite (of_Z_small a) by lia. cbn. symmetry. apply Z.leb_gt. lia.
  - rewrite (of_Z_small a), (of_Z_small b) by lia.
    rewrite compare_rep by (try apply representable_safe; lia).
    unfold Z.leb. destruct (a ?= b); reflexivity.
Qed.

(** ** The loop and the closed form on safe integers *)

Lemma triangle_step (k : Z) : 0 <= k -> triangle (k + 1) = triangle k + (k + 1).
Proof.
  intros Hk. unfold triangle.
  replace ((k + 1) * (k + 1 + 1)) with (k * (k + 1) + (k + 1) * 2) by ring.
  rewrite Z.div_add by lia. reflexivity.
Qed.

Lemma triangle_mono (j k : Z) : 0 <= j <= k -> triangle j <= triangle k.
Proof. intros H. unfold triangle. apply Z.div_le_mono; nia. Qed.

Lemma triangle_ge (k : Z) : 0 <= k -> k <= triangle k.
Proof.
  intros H. unfold triangle. apply Z.div_le_lower_bound; nia.
Qed.

Lemma sumIterative_loop_S (fuel : nat) (n i total : number) :
  sumIterative_loop (S fuel) n i total
  = if leb i n
    then sumIterative_loop fuel n (add i (of_Z 1)) (add total i)
    else Some total.
Proof. reflexivity. Qed.

(** The invariant of the loop: on entry with counter [i] the total is the sum
    of [1 .. i - 1]. *)
Lemma sumIterative_loop_exact (n : Z) (k : nat) (i : Z) (extra : nat) :
  0 <= n -> triangle n <= 2 ^ 53 ->
  1 <= i <= n + 1 -> Z.of_nat k = n + 1 - i ->
  sumIterative_loop (S k + extra) (of_Z n) (of_Z i) (of_Z (triangle (i - 1)))
  = Some (of_Z (triangle n)).
Proof.
  intros Hn Hsafe. revert i. induction k as [|k IH]; intros i Hi Hk.
  - assert (i = n + 1) by lia. subst i.
    change (1 + extra)%nat with (S extra). rewrite sumIterative_loop_S.
    pose proof (triangle_ge n Hn).
    destruct (Z.eq_dec n (2 ^ 53)) as [->|Hne].
    { exfalso. vm_compute in Hsafe. now apply Hsafe. }
    rewrite leb_of_Z by lia.
    replace (n + 1 <=? n) with false by (symmetry; apply Z.leb_gt; lia).
    replace (n + 1 - 1) with n by lia. reflexivity.
  - change (S (S k) + extra)%nat with (S (S k + extra)).
    rewrite sumIterative_loop_S.
    pose proof (triangle_ge n Hn).
    pose proof (triangle_mono i n ltac:(lia)).
    pose proof (triangle_mono (i - 1) n ltac:(lia)).
    pose proof (triangle_ge (i - 1) ltac:(lia)).
    pose proof (triangle_step (i - 1) ltac:(lia)) as Hstep.
    replace (i - 1 + 1) with i in Hstep by lia.
    rewrite leb_of_Z by lia.
    replace (i <=? n) with true by (symmetry; apply Z.leb_le; lia).
    rewrite !add_of_Z by lia.
    rewrite <- Hstep.
    replace i with (i + 1 - 1) at 2 by lia.
    apply (IH (i + 1)); lia.
Qed.

Lemma safe_bound (n : Z) : 0 <= n -> triangle n <= 2 ^ 53 -> n < 2 ^ 27.
Proof.
  intros Hn H. destruct (Z.lt_ge_cases n (2 ^ 27)) as [|Hge]; [assumption|].
  exfalso. pose proof (triangle_mono (2 ^ 27) n ltac:(lia)) as Hm.
  assert (Ht : triangle (2 ^ 27) = 2 ^ 53 + 2 ^ 26) by reflexivity.
  rewrite Ht in Hm. lia.
Qed.

Lemma sumIterative_exact (n : Z) (fuel : nat) :
  0 <= n -> triangle n <= 2 ^ 53 -> (Z.to_nat n < fuel)%nat ->
  sumIterative fuel (of_Z n) = Some (of_Z (triangle n)).
Proof.
  intros Hn Hsafe Hfuel. unfold sumIterative.
  replace fuel with (S (Z.to_nat n) + (fuel - S (Z.to_nat n)))%nat by lia.
  change (of_Z 0) with (of_Z (triangle (1 - 1))).
  apply sumIterative_loop_exact; try assumption; lia.
Qed.

Lemma consecutive_even (n : Z) : (n * (n + 1)) mod 2 = 0.
Proof.
  destruct (Z.Even_or_Odd n) as [[c Hc]|[c Hc]]; subst n.
  - replace (2 * c * (2 * c + 1)) with (c * (2 * c + 1) * 2) by ring.
    apply Z.mod_mul; lia.
  - replace ((2 * c + 1) * (2 * c + 1 + 1)) with ((2 * c + 1) * (c + 1) * 2) by ring.
    apply Z.mod_mul; lia.
Qed.

Lemma sumFormula_exact (n : Z) :
  0 <= n -> triangle n <= 2 ^ 53 ->
  sumFormula (of_Z n) = of_Z (triangle n).
Proof.
  intros Hn Hsafe. unfold sumFormula.
  destruct (Z.eq_dec n 0) as [->|Hn0]; [reflexivity|].
  pose proof (safe_bound n Hn Hsafe) as Hb.
  pose proof (triangle_ge n Hn) as Hge.
  assert (H27 : 2 ^ 27 < 2 ^ 53) by reflexivity.
  assert (H1024 : 2 ^ 54 < 2 ^ 1024) by reflexivity.
  assert (H54 : 2 ^ 54 = 2 * 2 ^ 53) by reflexivity.
  rewrite add_of_Z by lia.
  pose proof (consecutive_even n) as Hmod.
  assert (Heven : n * (n + 1) = 2 * triangle n)
    by (unfold triangle; apply Z.div_exact; [lia|assumption]).
  assert (HR : representable (n * (n + 1))).
  { rewrite Heven. apply representable_double, representable_safe. lia. }
  rewrite (of_Z_small n), (of_Z_small (n + 1)), (of_Z_small (triangle n)) by lia.
  unfold div, mul. rewrite mul_rep by (try assumption; lia).
  apply rep_half; try assumption; try lia.
  pose proof (Z.log2_nonneg (n * (n + 1))).
  pose proof (expo_bound (n * (n + 1)) ltac:(lia)).
  unfold expo in *. lia.
Qed.

(** ** The sign of a rounded result *)

Lemma shr_m_nonneg (mrs : shr_record) (e n : Z) :
  0 <= shr_m mrs -> 0 <= shr_m (fst (shr mrs e n)).
Proof.
  intros Hm. unfold shr. destruct n as [|p|p]; cbn [fst]; try assumption.
  rewrite iter_pos_nat, shr_iter_m by assumption.
  apply Z.div_pos; lia.
Qed.

Lemma shr_record_of_loc_m (m : Z) (l : location) :
  shr_m (shr_record_of_loc m l) = m.
Proof. destruct l as [|[ | | ]]; reflexivity. Qed.

Lemma round_nearest_even_nonneg (m : Z) (l : location) :
  0 <= m -> 0 <= round_nearest_even m l.
Proof.
  intros H. destruct l as [|[ | | ]]; cbn; try lia.
  destruct (Z.even m); lia.
Qed.

Lemma round_aux_signed (s : bool) (m e : Z) (l : location) :
  0 <= m -> signed s (binary_round_aux prec emax s m e l).
Proof.
  intros Hm. unfold binary_round_aux, shr_fexp.
  pose proof (shr_m_nonneg (shr_record_of_loc m l) e
                (fexp prec emax (Zdigits2 m + e) - e)) as H1.
  rewrite shr_record_of_loc_m in H1. specialize (H1 Hm).
  destruct (shr (shr_record_of_loc m l) e _) as [mrs' e'].
  cbn [fst] in H1.
  set (m' := round_nearest_even (shr_m mrs') (loc_of_shr_record mrs')).
  assert (Hm' : 0 <= m') by now apply round_nearest_even_nonneg.
  pose proof (shr_m_nonneg (shr_record_of_loc m' loc_Exact) e'
                (fexp prec emax (Zdigits2 m' + e') - e')) as H2.
  rewrite shr_record_of_loc_m in H2. specialize (H2 Hm').
  destruct (shr (shr_record_of_loc m' loc_Exact) e' _) as [mrs'' e''].
  cbn [fst] in H2.
  destruct (shr_m mrs'') as [|p|p]; try lia.
  - reflexivity.
  - destruct (e'' <=? emax - prec); reflexivity.
Qed.

Lemma round_signed (s : bool) (m : positive) (e : Z) :
  signed s (binary_round prec emax s m e).
Proof.
  unfold binary_round. destruct (shl_align m e _) as [mz ez].
  apply round_aux_signed. lia.
Qed.

(** The sign of a normalized integer-times-power-of-two. *)
Lemma normalize_nonneg (m e : Z) :
  0 <= m -> signed false (binary_normalize prec emax m e false).
Proof.
  intros H. destruct m as [|p|p]; try lia; cbn [binary_normalize].
  - reflexivity.
  - apply round_signed.
Qed.

Lemma normalize_nonpos (m e : Z) :
  m <= 0 ->
  binary_normalize prec emax m e false = S754_zero false \/
  signed true (binary_normalize prec emax m e false).
Proof.
  intros H. destruct m as [|p|p]; try lia; cbn [binary_normalize].
  - now left.
  - right. apply round_signed.
Qed.

(** ** Order of two valid finite numbers *)

Lemma canonical_digits (m : positive) (e : Z) :
  bounded prec emax m e = true ->
  -1074 <= e /\ Zpos m < 2 ^ 53 /\ (-1074 < e -> 2 ^ 52 <= Zpos m).
Proof.
  unfold bounded, canonical_mantissa. intros H.
  apply andb_true_iff in H. destruct H as [H _]. apply Z.eqb_eq in H.
  change (Zpos (digits2_pos m)) with (Zdigits2 (Zpos m)) in H.
  rewrite Zdigits2_log2 in H.
  unfold fexp, SpecFloat.emin, prec, emax in H.
  pose proof (Z.log2_spec (Zpos m) ltac:(lia)) as [Hlo Hhi].
  assert (Hl : Z.log2 (Zpos m) <= 52) by lia.
  repeat split.
  - lia.
  - apply Z.lt_le_trans with (2 ^ Z.succ (Z.log2 (Zpos m))); [assumption|].
    apply Z.pow_le_mono_r; lia.
  - intros He. assert (Z.log2 (Zpos m) = 52) by lia.
    rewrite <- H0. assumption.
Qed.

Lemma aligned_lt (m1 m2 : positive) (e1 e2 : Z) :
  bounded prec emax m1 e1 = true -> bounded prec emax m2 e2 = true ->
  e1 < e2 ->
  Zpos (fst (shl_align m1 e1 (Z.min e1 e2))) < Zpos (fst (shl_align m2 e2 (Z.min e1 e2))).
Proof.
  intros H1 H2 He.
  destruct (canonical_digits m1 e1 H1) as (Hb1 & Hu1 & _).
  destruct (canonical_digits m2 e2 H2) as (_ & _ & Hl2).
  rewrite Z.min_l by lia.
  rewrite shl_align_id by lia. cbn [fst].
  destruct (shl_align_spec m2 e2 e1 ltac:(lia)) as [-> _].
  assert (2 ^ 1 <= 2 ^ (e2 - e1)) by (apply Z.pow_le_mono_r; lia).
  change (2 ^ 1) with 2 in *. change (2 ^ 53) with (2 ^ 52 * 2) in Hu1.
  specialize (Hl2 ltac:(lia)). nia.
Qed.

(** [x <= y] on valid finite numbers is the order of their aligned mantissas. *)
Lemma leb_aligned (s1 s2 : bool) (m1 m2 : positive) (e1 e2 : Z) :
  bounded prec emax m1 e1 = true -> bounded prec emax m2 e2 = true ->
  SFleb (S754_finite s1 m1 e1) (S754_finite s2 m2 e2) = true ->
  aligned s1 m1 e1 (Z.min e1 e2) <= aligned s2 m2 e2 (Z.min e1 e2).
Proof.
  intros H1 H2. unfold SFleb, SFcompare, aligned.
  pose proof (aligned_lt m1 m2 e1 e2 H1 H2) as Hlt.
  pose proof (aligned_lt m2 m1 e2 e1 H2 H1) as Hgt.
  rewrite (Z.min_comm e2 e1) in Hgt.
  destruct s1, s2; cbn [cond_Zopp]; try lia; try discriminate.
  - destruct (Z.compare_spec e1 e2) as [He|He|He]; try discriminate.
    + subst e2. rewrite Z.min_id, !shl_align_id by lia. cbn [fst].
      change (Pos.compare_cont Eq m1 m2) with (Zpos m1 ?= Zpos m2).
      destruct (Z.compare_spec (Zpos m1) (Zpos m2)); cbn; try discriminate; lia.
    + intros _. specialize (Hgt He). lia.
  - destruct (Z.compare_spec e1 e2) as [He|He|He]; try discriminate.
    + subst e2. rewrite Z.min_id, !shl_align_id by lia. cbn [fst].
      change (Pos.compare_cont Eq m1 m2) with (Zpos m1 ?= Zpos m2).
      destruct (Z.compare_spec (Zpos m1) (Zpos m2)); cbn; try discriminate; lia.
    + intros _. specialize (Hlt He). lia.
Qed.

(** ** A positive mantissa at an exponent of binary64 does not round to zero *)

Lemma shr_fexp_positive (m e : Z) (l : location) :
  0 < m -> -1074 <= e ->
  0 < shr_m (fst (shr_fexp prec emax m e l)) /\
  -1074 <= snd (shr_fexp prec emax m e l).
Proof.
  intros Hm He. unfold shr_fexp.
  destruct m as [|p|p]; try lia.
  rewrite Zdigits2_log2.
  pose proof (Z.log2_spec (Zpos p) ltac:(lia)) as [Hlo _].
  pose proof (Z.log2_nonneg (Zpos p)) as Hl0.
  set (n := fexp prec emax (Z.log2 (Zpos p) + 1 + e) - e).
  assert (Hn : n <= Z.log2 (Zpos p))
    by (unfold n, fexp, SpecFloat.emin, prec, emax; lia).
  unfold shr. destruct n as [|k|k] eqn:Hk; cbn [fst snd];
    rewrite ?shr_record_of_loc_m; try (split; lia).
  rewrite iter_pos_nat, shr_iter_m, shr_record_of_loc_m, positive_nat_Z
    by (rewrite shr_record_of_loc_m; lia).
  split; [|lia].
  apply Z.lt_le_trans with (2 ^ Z.log2 (Zpos p) / 2 ^ Zpos k).
  - rewrite <- Z.pow_sub_r by lia. apply Z.pow_pos_nonneg; lia.
  - apply Z.div_le_mono; [apply Z.pow_pos_nonneg|]; lia.
Qed.

Lemma round_nearest_even_ge (m : Z) (l : location) : m <= round_nearest_even m l.
Proof.
  destruct l as [|[ | | ]]; cbn; try lia. destruct (Z.even m); lia.
Qed.

Lemma round_aux_nonzero (s : bool) (m e : Z) (l : location) :
  0 < m -> -1074 <= e -> nonzero (binary_round_aux prec emax s m e l).
Proof.
  intros Hm He. unfold binary_round_aux.
  destruct (shr_fexp_positive m e l Hm He) as [H1 H1e].
  destruct (shr_fexp prec emax m e l) as [mrs' e']. cbn [fst snd] in H1, H1e.
  pose proof (round_nearest_even_ge (shr_m mrs') (loc_of_shr_record mrs')) as Hr.
  set (m' := round_nearest_even (shr_m mrs') (loc_of_shr_record mrs')) in *.
  destruct (shr_fexp_positive m' e' loc_Exact ltac:(lia) H1e) as [H2 _].
  destruct (shr_fexp prec emax m' e' loc_Exact) as [mrs'' e'']. cbn [fst] in H2.
  destruct (shr_m mrs'') as [|p|p]; try lia.
  destruct (e'' <=? emax - prec); exact I.
Qed.

(** The Number of a decimal with six fractional digits and non-zero digits [n]
    keeps the sign and is not zero. *)
Lemma decimal_to_number (s : bool) (n : positive) :
  let x := SFdiv prec emax (S754_finite s n 0) (S754_finite false 1000000 0) in
  signed s x /\ nonzero x.
Proof.
  cbn zeta. cbn [SFdiv]. unfold SFdiv_core_binary.
  rewrite !Zdigits2_log2. change (Z.log2 1000000) with 19.
  pose proof (Z.log2_spec (Zpos n) ltac:(lia)) as [Hlo _].
  pose proof (Z.log2_nonneg (Zpos n)) as Hl0.
  set (e' := Z.min (fexp prec emax (Z.log2 (Zpos n) + 1 + 0 - (19 + 1 + 0))) (0 - 0)).
  assert (He' : e' = Z.min (Z.log2 (Zpos n) - 72) 0)
    by (unfold e', fexp, SpecFloat.emin, prec, emax; lia).
  set (m' := match 0 - 0 - e' with
             | 0 => Zpos n
             | Zpos _ => Z.shiftl (Zpos n) (0 - 0 - e')
             | Zneg _ => 0
             end).
  assert (Hm' : 2 ^ 72 <= m').
  { unfold m'. destruct (0 - 0 - e') as [|k|k] eqn:Hk; try lia.
    - apply Z.le_trans with (2 ^ Z.log2 (Zpos n)); [|assumption].
      apply Z.pow_le_mono_r; lia.
    - rewrite Z.shiftl_mul_pow2 by lia.
      replace 72 with (Z.log2 (Zpos n) + Zpos k) by lia.
      rewrite Z.pow_add_r by lia.
      apply Z.mul_le_mono_nonneg_r; [apply Z.pow_nonneg|]; lia. }
  pose proof (Z.div_eucl_eq m' 1000000 ltac:(lia)) as Heq.
  pose proof (Z.mod_pos_bound m' 1000000 ltac:(lia)) as Hb.
  unfold Z.modulo in Hb.
  destruct (Z.div_eucl m' 1000000) as [q r].
  assert (Hq : 0 < q).
  { change (2 ^ 72) with 4722366482869645213696 in Hm'. lia. }
  rewrite xorb_false_r. split.
  - apply round_aux_signed. lia.
  - apply round_aux_nonzero; lia.
Qed.

(** ** Exact values *)

Lemma to_Z_rep (V : Z) :
  0 < V -> representable V -> to_Z (rep false V) = Some V.
Proof.
  intros HV HR. unfold rep, to_Z.
  pose proof (mant_pos V HV) as Hmp.
  destruct (mant_spec V HV HR) as [Hlo Hhi].
  rewrite Z2Pos.id by assumption.
  destruct (Z.leb_spec 0 (expo V)) as [He|He].
  - cbn [cond_Zopp]. f_equal. symmetry. now apply Hhi.
  - rewrite (Hlo ltac:(lia)).
    rewrite Z.mod_mul by (apply Z.pow_nonzero; lia). cbn [Z.eqb cond_Zopp].
    rewrite Z.div_mul by (apply Z.pow_nonzero; lia). reflexivity.
Qed.

Lemma to_Z_of_Z (V : Z) : 0 <= V <= 2 ^ 53 -> to_Z (of_Z V) = Some V.
Proof.
  intros H. destruct (Z.eq_dec V 0) as [->|Hne]; [reflexivity|].
  rewrite of_Z_small by lia. apply to_Z_rep; [lia|].
  apply representable_safe. lia.
Qed.

(** ** The sum term by term *)

Lemma sum_range_succ (n : Z) :
  0 <= n -> sum_range (n + 1) = sum_range n + (n + 1).
Proof.
  intros Hn. unfold sum_range.
  replace (Z.to_nat (n + 1)) with (Z.to_nat n + 1)%nat by lia.
  rewrite seq_app, map_app, fold_left_app. cbn [seq map fold_left].
  f_equal. lia.
Qed.

Lemma sum_range_triangle (n : Z) : 0 <= n -> sum_range n = triangle n.
Proof.
  revert n. apply natlike_ind.
  - reflexivity.
  - intros n Hn IH. change (Z.succ n) with (n + 1).
    rewrite sum_range_succ, triangle_step, IH by assumption. reflexivity.
Qed.

(** The loop ends on every integer bound below 2^53, whatever the total. *)
Lemma sumIterative_loop_ends (n : Z) (k : nat) (i : Z) (extra : nat) (total : number) :
  0 <= n < 2 ^ 53 -> 1 <= i <= n + 1 -> Z.of_nat k = n + 1 - i ->
  exists v, sumIterative_loop (S k + extra) (of_Z n) (of_Z i) total = Some v.
Proof.
  intros Hn. revert i total. induction k as [|k IH]; intros i total Hi Hk.
  - assert (i = n + 1) by lia. subst i.
    change (1 + extra)%nat with (S extra). rewrite sumIterative_loop_S.
    rewrite leb_of_Z by lia.
    replace (n + 1 <=? n) with false by (symmetry; apply Z.leb_gt; lia).
    now exists total.
  - change (S (S k) + extra)%nat with (S (S k + extra)).
    rewrite sumIterative_loop_S.
    rewrite leb_of_Z by lia.
    replace (i <=? n) with true by (symmetry; apply Z.leb_le; lia).
    rewrite add_of_Z by lia.
    apply IH; lia.
Qed.

Lemma sumIterative_ends (n : Z) (fuel : nat) :
  0 <= n < 2 ^ 53 -> n < Z.of_nat fuel ->
  exists v, sumIterative fuel (of_Z n) = Some v.
Proof.
  intros Hn Hfuel. unfold sumIterative.
  replace fuel with (S (Z.to_nat n) + (fuel - S (Z.to_nat n)))%nat by lia.
  apply sumIterative_loop_ends; lia.
Qed.

(** [x < y] excludes [y <= x], on every pair of Numbers. *)
Lemma ltb_not_leb (x y : number) : SFltb x y = true -> SFleb y x = false.
Proof.
  unfold SFltb, SFleb.
  destruct x as [sx|sx| |sx mx ex], y as [sy|sy| |sy my ey]; cbn;
    try discriminate; try reflexivity;
    try (destruct sx; (discriminate || reflexivity));
    try (destruct sy; (discriminate || reflexivity));
    try (destruct sx, sy; (discriminate || reflexivity)).
  change (Pos.compare_cont Eq mx my) with (Pos.compare mx my).
  change (Pos.compare_cont Eq my mx) with (Pos.compare my mx).
  rewrite (Z.compare_antisym ex ey), (Pos.compare_antisym mx my).
  destruct sx, sy; try discriminate; try reflexivity;
    destruct (ex ?= ey); cbn; try discriminate; try reflexivity;
    destruct (mx ?= my)%positive; cbn; try discriminate; reflexivity.
Qed.

(** ** Differences, quotients and the label *)

Lemma signed_false_nonneg (x : number) : signed false x -> nonneg x.
Proof. destruct x; cbn; auto. Qed.

Lemma signed_true_not_positive (x : number) : signed true x -> not_positive x.
Proof. destruct x; cbn; auto. Qed.

Lemma nonneg_leb (x : number) : nonneg x -> leb (of_Z 0) x = true.
Proof. destruct x as [s|s| |s m e]; cbn; intros H; subst; easy. Qed.

Lemma not_positive_gtb (x : number) : not_positive x -> gtb x (of_Z 0) = false.
Proof. destruct x as [s|s| |s m e]; cbn; intros H; subst; easy. Qed.

Lemma positive_gtb (x : number) :
  signed false x -> nonzero x -> gtb x (of_Z 0) = true.
Proof. destruct x as [s|s| |s m e]; cbn; intros H H'; subst; easy. Qed.

Lemma sub_finite (sx sy : bool) (mx my : positive) (ex ey : Z) :
  sub (S754_finite sx mx ex) (S754_finite sy my ey)
  = binary_normalize prec emax
      (aligned sx mx ex (Z.min ex ey) - aligned sy my ey (Z.min ex ey))
      (Z.min ex ey) false.
Proof. reflexivity. Qed.

Lemma sub_not_positive (x y : number) :
  valid x = true -> valid y = true -> leb x y = true -> not_positive (sub x y).
Proof.
  intros Hx Hy.
  destruct x as [sx|sx| |sx mx ex], y as [sy|sy| |sy my ey];
    try (cbn; discriminate);
    try (destruct sx; cbn; (discriminate || easy));
    try (destruct sy; cbn; (discriminate || easy));
    try (destruct sx, sy; cbn; (discriminate || easy)).
  intros Hle. rewrite sub_finite.
  pose proof (leb_aligned sx sy mx my ex ey Hx Hy Hle) as Hal.
  destruct (normalize_nonpos
              (aligned sx mx ex (Z.min ex ey) - aligned sy my ey (Z.min ex ey))
              (Z.min ex ey) ltac:(lia)) as [-> | Hs].
  - exact I.
  - now apply signed_true_not_positive.
Qed.

Lemma sub_nonneg (x y : number) :
  valid x = true -> valid y = true ->
  is_finite x = true -> is_finite y = true ->
  leb y x = true -> nonneg (sub x y).
Proof.
  intros Hx Hy Hfx Hfy.
  destruct x as [sx|sx| |sx mx ex], y as [sy|sy| |sy my ey];
    try discriminate;
    try (destruct sx; cbn; (discriminate || easy));
    try (destruct sy; cbn; (discriminate || easy));
    try (destruct sx, sy; cbn; (discriminate || easy)).
  intros Hle. rewrite sub_finite.
  pose proof (leb_aligned sy sx my mx ey ex Hy Hx Hle) as Hal.
  rewrite (Z.min_comm ey ex) in Hal.
  apply signed_false_nonneg, normalize_nonneg. lia.
Qed.

Lemma div_core_nonneg (m1 m2 : positive) (e1 e2 : Z) :
  0 <= fst (fst (SFdiv_core_binary prec emax (Zpos m1) e1 (Zpos m2) e2)).
Proof.
  unfold SFdiv_core_binary.
  set (s := e1 - e2 - _).
  set (m' := match s with 0 => Zpos m1 | Zpos _ => Z.shiftl (Zpos m1) s | Zneg _ => 0 end).
  assert (Hm' : 0 <= m').
  { unfold m'. destruct s; try lia. apply Z.shiftl_nonneg. lia. }
  pose proof (Z.div_pos m' (Zpos m2) Hm' ltac:(lia)) as Hq.
  unfold Z.div in Hq. destruct (Z.div_eucl m' (Zpos m2)) as [q r].
  exact Hq.
Qed.

Lemma div_nonneg (x : number) (m : positive) (e : Z) :
  nonneg x -> nonneg (div x (S754_finite false m e)).
Proof.
  destruct x as [sx|sx| |sx mx ex]; cbn [nonneg]; intros H; subst;
    try exact I; try reflexivity; try contradiction.
  unfold div. cbn [SFdiv].
  pose proof (div_core_nonneg mx m ex e) as Hq.
  destruct (SFdiv_core_binary prec emax (Zpos mx) ex (Zpos m) e) as [[mz ez] lz].
  cbn [fst] in Hq. apply signed_false_nonneg. now apply round_aux_signed.
Qed.

(** A duration measured between two readings of a clock that did not go back. *)
Lemma duration_nonneg (t0 t1 : number) :
  valid t0 = true -> valid t1 = true ->
  is_finite t0 = true -> is_finite t1 = true ->
  leb t0 t1 = true ->
  leb (of_Z 0) (div (sub t1 t0) (of_Z 1000)) = true.
Proof.
  intros V0 V1 F0 F1 Hle. apply nonneg_leb.
  change (of_Z 1000) with (S754_finite false 8796093022208000 (-43)).
  apply div_nonneg. now apply sub_nonneg.
Qed.

Lemma toFixed_digits_pos (m : positive) (e : Z) :
  e < 0 -> (0 < toFixed_digits m e <-> 2 ^ (- e) <= 2000000 * Zpos m).
Proof.
  intros He. unfold toFixed_digits.
  replace (0 <=? e) with false by (symmetry; apply Z.leb_gt; lia).
  assert (HP : 0 < 2 ^ (- e)) by (apply Z.pow_pos_nonneg; lia).
  split; intros H.
  - destruct (Z.le_gt_cases (2 ^ (- e)) (2000000 * Zpos m)) as [|Hlt]; [assumption|].
    rewrite Z.div_small in H by lia. lia.
  - apply Z.div_str_pos. lia.
Qed.

(** The label, from the difference of the two durations. *)
Lemma fasterMethod_spec (d : number) :
  fasterMethod (toFixed6 d)
  = if at_least_half_micro d then "Formula"%string else "Iterative"%string.
Proof.
  unfold fasterMethod.
  destruct d as [s|s| |s m e]; try (destruct s; reflexivity); try reflexivity.
  destruct s.
  - (* negative *)
    cbn [at_least_half_micro toFixed6].
    rewrite not_positive_gtb; [reflexivity|].
    destruct (at_least_1e21 m e); cbn [StringToNumber]; [reflexivity|].
    destruct (Z.eqb_spec (toFixed_digits m e) 0); [exact I|].
    apply signed_true_not_positive.
    apply (decimal_to_number true (Z.to_pos (toFixed_digits m e))).
  - cbn [at_least_half_micro toFixed6].
    assert (HP : 0 < 2 ^ (- e) \/ 0 <= e).
    { destruct (Z.le_gt_cases 0 e); [now right|left].
      apply Z.pow_pos_nonneg; lia. }
    destruct (at_least_1e21 m e) eqn:Hbig; cbn [StringToNumber].
    + change (gtb (S754_finite false m e) (of_Z 0)) with true. cbv iota.
      unfold at_least_1e21 in Hbig.
      destruct (Z.leb_spec 0 e) as [He|He]; [reflexivity|].
      apply Z.leb_le in Hbig.
      change (10 ^ 21) with 1000000000000000000000 in Hbig.
      replace (2 ^ (- e) <=? 2000000 * Zpos m) with true; [reflexivity|].
      symmetry. apply Z.leb_le. lia.
    + destruct (Z.leb_spec 0 e) as [He|He].
      * assert (Hn : 0 < toFixed_digits m e).
        { unfold toFixed_digits.
          replace (0 <=? e) with true by (symmetry; apply Z.leb_le; lia).
          assert (0 < 2 ^ e) by (apply Z.pow_pos_nonneg; lia). nia. }
        replace (toFixed_digits m e =? 0) with false
          by (symmetry; apply Z.eqb_neq; lia).
        destruct (decimal_to_number false (Z.to_pos (toFixed_digits m e))) as [Hs Hnz].
        now rewrite positive_gtb.
      * pose proof (toFixed_digits_pos m e He) as Hiff.
        destruct (Z.leb_spec (2 ^ (- e)) (2000000 * Zpos m)) as [Hc|Hc].
        -- replace (toFixed_digits m e =? 0) with false
             by (symmetry; apply Z.eqb_neq; lia).
           destruct (decimal_to_number false (Z.to_pos (toFixed_digits m e))) as [Hs Hnz].
           now rewrite positive_gtb.
        -- assert (Hz : toFixed_digits m e = 0).
           { assert (0 <= toFixed_digits m e); [|lia].
             unfold toFixed_digits.
             replace (0 <=? e) with false by (symmetry; apply Z.leb_gt; lia).
             apply Z.div_pos; lia. }
           rewrite Hz. reflexivity.
Qed.

(** * Facts about the runner *)

Lemma calls_app (name : string) (tr tr' : list Event) :
  calls name (tr ++ tr') = (calls name tr + calls name tr')%nat.
Proof.
  induction tr as [|ev tr IH]; [reflexivity|].
  destruct ev as [t|f|line]; cbn [app calls]; try assumption.
  destruct (String.eqb f name); cbn; now rewrite IH.
Qed.

Lemma calls_ticked (name : string) (w : World) :
  calls name (trace (ticked w)) = calls name (trace w).
Proof. unfold ticked. cbn [trace]. rewrite calls_app. cbn. lia. Qed.

Lemma calls_entered (name : string) (w : World) :
  calls name (trace (logged (EvCall name) w)) = S (calls name (trace w)).
Proof.
  unfold logged. cbn [trace]. rewrite calls_app. cbn [calls].
  rewrite String.eqb_refl. lia.
Qed.

Section ScriptFacts.

Context {Exn : Type}.
Variable NumberToString : number -> string.

Lemma measureExecTime_unfold {A R : Type}
      (func : JsFunction Exn A R) (args : A) (w : World) :
  measureExecTime func args w
  = match fn_body func args (logged (EvCall (fn_name func)) (ticked w)) with
    | Returned r w2 =>
        Returned {| time := ((clock w2 (reads w2) - clock w (reads w)) / of_Z 1000)%num;
                    result := r |} (ticked w2)
    | Thrown e w2 => Thrown e w2
    | Diverged => Diverged
    end.
Proof.
  unfold measureExecTime, bind, performance_now, invoke, ret.
  destruct (fn_body func args _); reflexivity.
Qed.

Lemma forEach_callback_returns (fuel : nat) (N a : number) (w : World) :
  sumIterative fuel N = Some a ->
  forEach_callback (Exn := Exn) NumberToString fuel N w
  = Returned tt (mkWorld (clock w) (4 + reads w) (trace w ++ block_events NumberToString w N a)).
Proof.
  intros Ha. unfold forEach_callback, bind at 1, console_log at 1.
  unfold bind at 1. rewrite measureExecTime_unfold.
  cbn [fn_body fn_name sumIterative_fn]. rewrite Ha.
  unfold bind at 1. rewrite measureExecTime_unfold.
  cbn [fn_body fn_name sumFormula_fn]. unfold ret at 1.
  unfold bind at 1, console_log at 1.
  cbn [time result]. unfold report_consistency, block_events.
  destruct (a !== sumFormula N)%num;
    unfold console_log, logged, ticked; cbn [clock reads trace];
    rewrite <- !app_assoc; reflexivity.
Qed.

Lemma block_events_block (w : World) (N a : number) :
  block_of (header_line NumberToString N) (block_events NumberToString w N a).
Proof. unfold block_events. constructor. Qed.

Lemma forEach_blocks (fuel : nat) (l : list number) (w : World) :
  Forall (fun N => exists a, sumIterative fuel N = Some a) l ->
  exists w' evs,
    forEach (Exn := Exn) l (forEach_callback NumberToString fuel) w = Returned tt w' /\
    trace w' = trace w ++ evs /\
    blocks (map (header_line NumberToString) l) evs.
Proof.
  intros Hl. revert w. induction Hl as [|N l [a Ha] Hl IH]; intro w.
  - exists w, []. cbn. rewrite app_nil_r. repeat split. constructor.
  - cbn [forEach]. unfold bind.
    rewrite (forEach_callback_returns fuel N a w Ha).
    destruct (IH (mkWorld (clock w) (4 + reads w) (trace w ++ block_events NumberToString w N a)))
      as (w' & evs & Hrun & Htr & Hbl).
    exists w', (block_events NumberToString w N a ++ evs). repeat split.
    + exact Hrun.
    + rewrite Htr. cbn [trace]. now rewrite app_assoc.
    + cbn [map]. constructor; [apply block_events_block|assumption].
Qed.

Lemma tested_values_end (fuel : nat) :
  9000000000 < Z.of_nat fuel ->
  Forall (fun N => exists a, sumIterative fuel N = Some a) TESTED_VALUES.
Proof.
  intros Hfuel. unfold TESTED_VALUES. apply Forall_map.
  assert (H : forallb (fun n => (0 <=? n) && (n <=? 9000000000)) TESTED_VALUES_Z = true)
    by reflexivity.
  rewrite forallb_forall in H. apply Forall_forall. intros n Hn.
  specialize (H n Hn). apply andb_true_iff in H. destruct H as [H0 H1].
  apply Z.leb_le in H0, H1.
  assert (9000000000 < 2 ^ 53) by reflexivity.
  apply sumIterative_ends; lia.
Qed.

End ScriptFacts.

(** * The properties of the script *)

Lemma safe_is_exact (n : Z) : triangle n <= MAX_SAFE_INTEGER -> triangle n <= 2 ^ 53.
Proof. unfold MAX_SAFE_INTEGER. change (2 ^ 53) with 9007199254740992. lia. Qed.

(** C1: for every non-negative integer [n] whose sum stays within the safe
    integers, where binary64 arithmetic on integers is exact, the loop (given
    enough steps to finish) returns the very Number the closed form
    returns. *)
Theorem sumIterative_eq_sumFormula (n : Z) (fuel : nat) :
  0 <= n -> n * (n + 1) / 2 <= MAX_SAFE_INTEGER -> n < Z.of_nat fuel ->
  sumIterative fuel (of_Z n) = Some (sumFormula (of_Z n)).
Proof.
  intros Hn Hsafe Hfuel. fold (triangle n) in Hsafe.
  apply safe_is_exact in Hsafe.
  rewrite sumFormula_exact by assumption.
  apply sumIterative_exact; try assumption. lia.
Qed.

Lemma sumIterative_eq_sumFormula_witness :
  sumIterative 101 (of_Z 100) = Some (sumFormula (of_Z 100)).
Proof.
  apply (sumIterative_eq_sumFormula 100 101).
  - lia.
  - vm_compute. discriminate.
  - lia.
Defined.

(** C2 as stated fails: at the largest tested value, 9000000000, the closed
    form does not return the exact value of n(n+1)/2. *)
Lemma sumFormula_exact_on_tested_values_fails :
  ~ Forall (fun n => to_Z (sumFormula (of_Z n)) = Some (n * (n + 1) / 2))
      TESTED_VALUES_Z.
Proof.
  intros H. rewrite Forall_forall in H.
  specialize (H 9000000000). 
  assert (Hin : In 9000000000 TESTED_VALUES_Z) by (unfold TESTED_VALUES_Z; cbn; tauto).
  specialize (H Hin). vm_compute in H. discriminate.
Qed.

(** C2, amended: the closed form returns the exact value of n(n+1)/2 for
    every non-negative integer [n] for which that value is a safe integer,
    and for every tested value other than 9000000000; at 9000000000 it
    returns 40500000004499996672, the binary64 value nearest to the exact
    40500000004500000000. *)
Theorem sumFormula_exact_value :
  (forall n : Z, 0 <= n -> n * (n + 1) / 2 <= MAX_SAFE_INTEGER ->
     to_Z (sumFormula (of_Z n)) = Some (n * (n + 1) / 2)) /\
  Forall (fun n => n <> 9000000000 ->
            to_Z (sumFormula (of_Z n)) = Some (n * (n + 1) / 2))
    TESTED_VALUES_Z /\
  to_Z (sumFormula (of_Z 9000000000)) = Some 40500000004499996672 /\
  sumFormula (of_Z 9000000000) = of_Z (9000000000 * (9000000000 + 1) / 2).
Proof.
  split; [|split; [|split]].
  - intros n Hn Hsafe. fold (triangle n) in *.
    pose proof (safe_is_exact n Hsafe) as Hex.
    rewrite sumFormula_exact by assumption.
    apply to_Z_of_Z. split; [|assumption].
    pose proof (triangle_ge n Hn). lia.
  - unfold TESTED_VALUES_Z.
    repeat (apply Forall_cons; [intros _; vm_compute; reflexivity|]).
    apply Forall_cons; [intros H; now elim H|]. apply Forall_nil.
  - vm_compute. reflexivity.
  - vm_compute. reflexivity.
Qed.

Lemma sumFormula_exact_value_witness :
  to_Z (sumFormula (of_Z 100000000)) = Some 5000000050000000.
Proof.
  destruct sumFormula_exact_value as [H _].
  apply (H 100000000).
  - lia.
  - vm_compute. discriminate.
Defined.

(** C3 as stated fails: with an iterative duration of 0.0000003 s and a
    closed-form duration of 0.0000001 s the first strictly exceeds the
    second, yet the label is not Formula, because the difference is rounded
    to six decimals before it is compared with zero. *)
Lemma fasterMethod_formula_when_slower_fails :
  ~ (forall it ft : number,
       valid it = true -> valid ft = true ->
       (it >? ft)%num = true ->
       fasterMethod (timeDifference it ft) = "Formula"%string).
Proof.
  intros H.
  specialize (H (of_Z 3 / of_Z 10000000)%num (of_Z 1 / of_Z 10000000)%num).
  vm_compute in H.
  specialize (H eq_refl eq_refl eq_refl). discriminate.
Qed.

(** C3, amended: the label is computed from the difference iterative time
    minus closed-form time after rounding it to six decimals.  It is Formula
    exactly when that difference is at least 0.0000005 (and so rounds to a
    positive number), and Iterative otherwise; in particular it is Iterative
    whenever the iterative duration is less than, or equal to, the
    closed-form duration. *)
Theorem fasterMethod_by_rounded_difference (it ft : number) :
  fasterMethod (timeDifference it ft)
  = (if at_least_half_micro (it - ft)%num then "Formula" else "Iterative")%string
  /\ (valid it = true -> valid ft = true -> (it <=? ft)%num = true ->
      fasterMethod (timeDifference it ft) = "Iterative"%string).
Proof.
  unfold timeDifference. split.
  - apply fasterMethod_spec.
  - intros Hi Hf Hle. unfold fasterMethod.
    rewrite not_positive_gtb; [reflexivity|].
    pose proof (sub_not_positive it ft Hi Hf Hle) as Hd.
    destruct (it - ft)%num as [s|s| |s m e]; cbn [not_positive] in Hd; subst;
      try exact I; try reflexivity.
    cbn [toFixed6]. destruct (at_least_1e21 m e); cbn [StringToNumber]; [reflexivity|].
    destruct (Z.eqb_spec (toFixed_digits m e) 0); [exact I|].
    apply signed_true_not_positive.
    apply (decimal_to_number true (Z.to_pos (toFixed_digits m e))).
Qed.

Lemma fasterMethod_by_rounded_difference_witness :
  fasterMethod (timeDifference (of_Z 1 / of_Z 10000000)%num (of_Z 3 / of_Z 10000000)%num)
  = "Iterative"%string.
Proof.
  apply (fasterMethod_by_rounded_difference
           (of_Z 1 / of_Z 10000000)%num (of_Z 3 / of_Z 10000000)%num);
    vm_compute; reflexivity.
Defined.

(** C4 as stated fails: no tested value exceeds the 64-bit signed range. *)
Lemma tested_values_beyond_int64_fails :
  ~ Exists (fun x => exists z, to_Z x = Some z /\ 2 ^ 63 - 1 < z) TESTED_VALUES.
Proof.
  intros H. apply Exists_exists in H. destruct H as (x & Hin & z & Hz & Hlt).
  assert (Hall : Forall (fun x => forall z, to_Z x = Some z -> z <= 9000000000)
                   TESTED_VALUES).
  { unfold TESTED_VALUES, TESTED_VALUES_Z. cbn [map].
    repeat (apply Forall_cons;
            [intros z' Hz'; vm_compute in Hz'; injection Hz' as <-; lia|]).
    apply Forall_nil. }
  rewrite Forall_forall in Hall. specialize (Hall x Hin z Hz).
  assert (9000000000 < 2 ^ 63 - 1) by reflexivity. lia.
Qed.

(** C4, amended: the fixed input list is a strictly increasing sequence of
    non-negative integers, each stored exactly; its largest value,
    9000000000, exceeds the 32-bit signed integer range, and every value is
    a safe integer, well inside the 64-bit signed range. *)
Theorem tested_values_shape :
  map to_Z TESTED_VALUES = map Some TESTED_VALUES_Z /\
  Forall (fun z => 0 <= z) TESTED_VALUES_Z /\
  StronglySorted Z.lt TESTED_VALUES_Z /\
  Exists (fun z => 2 ^ 31 - 1 < z) TESTED_VALUES_Z /\
  Forall (fun z => z <= MAX_SAFE_INTEGER /\ z <= 2 ^ 63 - 1) TESTED_VALUES_Z.
Proof.
  split; [vm_compute; reflexivity|].
  split; [unfold TESTED_VALUES_Z; repeat constructor; lia|].
  split.
  - unfold TESTED_VALUES_Z.
    repeat (apply SSorted_cons;
            [|repeat (apply Forall_cons; [reflexivity|]); apply Forall_nil]).
    apply SSorted_nil.
  - split.
    + unfold TESTED_VALUES_Z. do 10 apply Exists_cons_tl.
      apply Exists_cons_hd. reflexivity.
    + unfold TESTED_VALUES_Z.
      repeat (apply Forall_cons; [split; vm_compute; discriminate|]).
      apply Forall_nil.
Qed.

(** C5: for every non-negative integer [n] whose sum is a safe integer, the
    loop, given enough steps to finish, returns exactly 1 + 2 + ... + n; and
    sumIterative(10) is 55, sumIterative(100) is 5050. *)
Theorem sumIterative_sums_range :
  (forall (n : Z) (fuel : nat),
     0 <= n -> sum_range n <= MAX_SAFE_INTEGER -> n < Z.of_nat fuel ->
     sumIterative fuel (of_Z n) = Some (of_Z (sum_range n)) /\
     to_Z (of_Z (sum_range n)) = Some (sum_range n)) /\
  sumIterative 11 (of_Z 10) = Some (of_Z 55) /\
  sumIterative 101 (of_Z 100) = Some (of_Z 5050).
Proof.
  split; [|split; vm_compute; reflexivity].
  intros n fuel Hn Hsafe Hfuel.
  rewrite sum_range_triangle in * by assumption.
  pose proof (safe_is_exact n Hsafe) as Hex.
  pose proof (triangle_ge n Hn) as Hge.
  split.
  - apply sumIterative_exact; try assumption. lia.
  - apply to_Z_of_Z. lia.
Qed.

Lemma sumIterative_sums_range_witness :
  sumIterative 5 (of_Z 4) = Some (of_Z (sum_range 4)) /\
  to_Z (of_Z (sum_range 4)) = Some 10.
Proof.
  destruct sumIterative_sums_range as [H _].
  apply (H 4 5%nat).
  - lia.
  - vm_compute. discriminate.
  - lia.
Defined.

(** C6: both strategies return 0 at the bound 0. *)
Theorem strategies_at_zero (fuel : nat) :
  sumIterative (S fuel) (of_Z 0) = Some (of_Z 0) /\
  sumFormula (of_Z 0) = of_Z 0 /\
  to_Z (of_Z 0) = Some 0.
Proof. repeat split. Qed.

(** C10: on every Number strictly less than 1, negative ones included, the
    loop body never runs and sumIterative returns 0. *)
Theorem sumIterative_below_one (n : number) (fuel : nat) :
  ltb n (of_Z 1) = true ->
  sumIterative (S fuel) n = Some (of_Z 0).
Proof.
  intros Hlt. unfold sumIterative. rewrite sumIterative_loop_S.
  unfold leb. now rewrite (ltb_not_leb n (of_Z 1) Hlt).
Qed.

Lemma sumIterative_below_one_witness :
  sumIterative 1 (of_Z (-7)) = Some (of_Z 0) /\
  sumIterative 1 (of_Z 1 / of_Z 2)%num = Some (of_Z 0).
Proof.
  split.
  - apply (sumIterative_below_one (of_Z (-7)) 0). reflexivity.
  - apply (sumIterative_below_one (of_Z 1 / of_Z 2)%num 0). reflexivity.
Defined.

(** C7: measureExecTime enters the wrapped function exactly once; when the
    function returns, the measurement carries its return value unchanged and,
    on a timer that does not run backwards, a non-negative duration in
    seconds; when it throws, the same failure reaches the caller from the
    world the function left, with no second timer reading and no retry. *)
Theorem measureExecTime_once {Exn A R : Type}
        (func : JsFunction Exn A R) (args : A) (w : World) :
  let entered := logged (EvCall (fn_name func)) (ticked w) in
  let start := clock w (reads w) in
  match fn_body func args entered with
  | Returned r w2 =>
      let end_ := clock w2 (reads w2) in
      measureExecTime func args w
      = Returned {| time := ((end_ - start) / of_Z 1000)%num; result := r |}
                 (ticked w2)
      /\ (calls (fn_name func) (trace w2) = calls (fn_name func) (trace entered) ->
          calls (fn_name func) (trace (ticked w2))
          = S (calls (fn_name func) (trace w)))
      /\ (valid start = true -> valid end_ = true ->
          is_finite start = true -> is_finite end_ = true ->
          (start <=? end_)%num = true ->
          (of_Z 0 <=? (end_ - start) / of_Z 1000)%num = true)
  | Thrown e w2 =>
      measureExecTime func args w = Thrown e w2
      /\ (calls (fn_name func) (trace w2) = calls (fn_name func) (trace entered) ->
          calls (fn_name func) (trace w2) = S (calls (fn_name func) (trace w)))
  | Diverged => measureExecTime func args w = Diverged
  end.
Proof.
  cbv zeta. rewrite measureExecTime_unfold.
  destruct (fn_body func args (logged (EvCall (fn_name func)) (ticked w)))
    as [r w2|e w2|].
  - split; [reflexivity|]. split.
    + intros Hframe.
      rewrite calls_ticked, Hframe, calls_entered, calls_ticked. reflexivity.
    + intros V0 V1 F0 F1 Hle. now apply duration_nonneg.
  - split; [reflexivity|]. intros Hframe.
    rewrite Hframe, calls_entered, calls_ticked. reflexivity.
  - reflexivity.
Qed.

Lemma measureExecTime_once_witness :
  exists t w',
    measureExecTime (Exn := unit) sumFormula_fn (of_Z 10) world0
    = Returned {| time := t; result := of_Z 55 |} w' /\
    calls "sumFormula" (trace w') = 1%nat /\
    (of_Z 0 <=? t)%num = true.
Proof.
  pose proof (measureExecTime_once (Exn := unit) sumFormula_fn (of_Z 10) world0) as H.
  vm_compute in H. destruct H as (H1 & H2 & H3).
  eexists. eexists. split; [exact H1|]. split.
  - apply H2. reflexivity.
  - apply H3; reflexivity.
Defined.

Lemma string_append_assoc (a b c : string) :
  ((a ++ b) ++ c)%string = (a ++ b ++ c)%string.
Proof. induction a as [|ch a IH]; cbn; congruence. Qed.

(** C8: whatever the two results are, the report returns after adding exactly
    one line to the console, with the timer untouched.  When the results are
    strictly equal that line is the green text "Results are consistent: "
    followed by the iterative result; when they are not it is the red text
    "WARNING: Results different! Iterative: ", the iterative result,
    ", Formula: " and the closed-form result, so the warning contains both
    results.  The callback returns with that line, on the results of the two
    strategies, as the last event of its trace. *)
Theorem report_consistency_verdict {Exn : Type} (NumberToString : number -> string) :
  let consistent (a : number) : string :=
    (String "027" "[32mResults are consistent: "
       ++ NumberToString a ++ String "027" "[0m")%string in
  let mismatch (a b : number) : string :=
    (String "027" "[31mWARNING: Results different! Iterative: "
       ++ NumberToString a ++ ", Formula: " ++ NumberToString b
       ++ String "027" "[0m")%string in
  let verdict (a b : number) : string :=
    if (a === b)%num then consistent a else mismatch a b in
  (forall (a b : number) (w : World),
     exists w',
       report_consistency (Exn := Exn) NumberToString a b w = Returned tt w' /\
       clock w' = clock w /\ reads w' = reads w /\
       trace w' = trace w ++ [EvLog (verdict a b)]) /\
  (forall a b : number,
     includes (NumberToString a) (mismatch a b) /\
     includes (NumberToString b) (mismatch a b)) /\
  (forall (fuel : nat) (N a : number) (w : World),
     sumIterative fuel N = Some a ->
     exists w' tr,
       forEach_callback (Exn := Exn) NumberToString fuel N w = Returned tt w' /\
       trace w' = tr ++ [EvLog (verdict a (sumFormula N))]).
Proof.
  cbv zeta. split; [|split].
  - intros a b w. unfold report_consistency, strict_neq, strict_eq.
    destruct (SFeqb a b); cbn [negb]; eexists;
      (split; [reflexivity|]); repeat split.
  - intros a b. split.
    + exists (String "027" "[31mWARNING: Results different! Iterative: "),
             (", Formula: " ++ NumberToString b ++ String "027" "[0m")%string.
      rewrite ?string_append_assoc. reflexivity.
    + exists (String "027" "[31mWARNING: Results different! Iterative: "
                ++ NumberToString a ++ ", Formula: ")%string,
             (String "027" "[0m").
      rewrite ?string_append_assoc. reflexivity.
  - intros fuel N a w Ha.
    rewrite (forEach_callback_returns NumberToString fuel N a w Ha).
    eexists. eexists. split; [reflexivity|]. cbn [trace].
    unfold block_events, strict_neq, strict_eq.
    match goal with
    | |- _ ++ ?a :: ?b :: ?c :: ?d :: ?e :: ?f :: ?g :: ?h :: ?last = _ =>
        change (a :: b :: c :: d :: e :: f :: g :: h :: last)
          with ([a; b; c; d; e; f; g; h] ++ last)
    end.
    rewrite app_assoc. destruct (SFeqb a (sumFormula N)); reflexivity.
Qed.

Lemma report_consistency_verdict_witness :
  (exists w' tr,
     forEach_callback (Exn := unit) text0 4 (of_Z 3) world0 = Returned tt w' /\
     trace w'
     = tr ++ [EvLog (String "027" "[32mResults are consistent: n"
                       ++ String "027" "[0m")]) /\
  (exists w',
     report_consistency (Exn := unit) text0 (of_Z 1) (of_Z 2) world0
     = Returned tt w' /\
     trace w'
     = [EvLog (String "027" "[31mWARNING: Results different! Iterative: n, Formula: n"
                 ++ String "027" "[0m")]).
Proof.
  destruct (report_consistency_verdict (Exn := unit) text0) as (H1 & _ & H3).
  split.
  - apply (H3 4%nat (of_Z 3) (of_Z 6) world0). vm_compute. reflexivity.
  - destruct (H1 (of_Z 1) (of_Z 2) world0) as (w' & Hrun & _ & _ & Htr).
    exists w'. split; assumption.
Defined.

(** C9: the run handles the tested values strictly in list order; the trace
    it adds is one complete block per value (header, the timing of
    sumIterative, then the timing of sumFormula, then the two report lines),
    each block ended before the next begins. *)
Theorem main_in_list_order {Exn : Type} (NumberToString : number -> string)
        (fuel : nat) (w : World) :
  9000000000 < Z.of_nat fuel ->
  exists w' evs,
    main (Exn := Exn) NumberToString fuel w = Returned tt w' /\
    trace w' = trace w ++ evs /\
    blocks (map (header_line NumberToString) TESTED_VALUES) evs.
Proof.
  intros Hfuel. unfold main.
  apply forEach_blocks. now apply tested_values_end.
Qed.

Lemma main_in_list_order_witness :
  exists w' evs,
    main (Exn := unit) text0 (Z.to_nat 9000000001) world0 = Returned tt w' /\
    trace w' = trace world0 ++ evs /\
    blocks (map (header_line text0) TESTED_VALUES) evs.
Proof.
  apply (main_in_list_order (Exn := unit) text0 (Z.to_nat 9000000001) world0).
  rewrite Z2Nat.id; lia.
Defined.

(** * Further properties of the code *)

(** ** The loop beyond the integers it can count *)

Lemma expo_le_one (i : Z) : 1 <= i <= 2 ^ 53 -> expo i <= 1.
Proof.
  intros H. unfold expo.
  assert (Z.log2 i <= 53); [|lia].
  change 53 with (Z.log2 (2 ^ 53)). apply Z.log2_le_mono. lia.
Qed.

Lemma leb_below_pow53 (i : Z) (n : number) :
  1 <= i <= 2 ^ 53 -> leb (of_Z (2 ^ 53)) n = true -> leb (of_Z i) n = true.
Proof.
  intros Hi. rewrite (of_Z_small i) by lia.
  pose proof (expo_le_one i Hi) as He.
  change (of_Z (2 ^ 53)) with (S754_finite false 4503599627370496 1).
  unfold leb, SFleb, rep.
  destruct n as [s|s| |s m e]; cbn [SFcompare]; try (intros H; exact H).
  destruct s; [intros H; exact H|].
  destruct (Z.compare_spec 1 e) as [H1|H1|H1]; try discriminate.
  - subst e. destruct (Z.compare_spec (expo i) 1) as [H2|H2|H2]; try reflexivity; try lia.
    assert (Hi53 : i = 2 ^ 53).
    { unfold expo in H2. assert (Hl : Z.log2 i = 53) by lia.
      pose proof (Z.log2_spec i ltac:(lia)) as [Hlo _]. rewrite Hl in Hlo. lia. }
    subst i. intros H. exact H.
  - intros _. destruct (Z.compare_spec (expo i) e); try reflexivity; lia.
Qed.

Lemma increment_absorbed : (of_Z (2 ^ 53) + of_Z 1)%num = of_Z (2 ^ 53).
Proof. vm_compute. reflexivity. Qed.

Lemma increment_of_Z (i : Z) :
  1 <= i <= 2 ^ 53 -> (of_Z i + of_Z 1)%num = of_Z (Z.min (i + 1) (2 ^ 53)).
Proof.
  intros Hi. destruct (Z.eq_dec i (2 ^ 53)) as [->|Hne].
  - rewrite increment_absorbed. reflexivity.
  - assert (H1 : 1 < 2 ^ 53) by reflexivity.
    rewrite add_of_Z by lia. f_equal. lia.
Qed.

Lemma sumIterative_loop_spins (fuel : nat) (n : number) (i : Z) (total : number) :
  leb (of_Z (2 ^ 53)) n = true -> 1 <= i <= 2 ^ 53 ->
  sumIterative_loop fuel n (of_Z i) total = None.
Proof.
  intros Hn. revert i total. induction fuel as [|fuel IH]; intros i total Hi.
  - reflexivity.
  - rewrite sumIterative_loop_S, (leb_below_pow53 i n Hi Hn).
    rewrite increment_of_Z by assumption.
    apply IH. assert (1 < 2 ^ 53) by reflexivity. lia.
Qed.

(** X1: on every bound of 2^53 or more, [Infinity] included, the loop never
    ends: the counter reaches 2^53, where adding 1 changes nothing, and never
    exceeds the bound. *)
Theorem sumIterative_never_returns_from_pow53 (n : number) (fuel : nat) :
  (of_Z (2 ^ 53) <=? n)%num = true -> sumIterative fuel n = None.
Proof.
  intros Hn. unfold sumIterative. apply sumIterative_loop_spins; [assumption|].
  assert (1 < 2 ^ 53) by reflexivity. lia.
Qed.

Lemma sumIterative_never_returns_from_pow53_witness :
  sumIterative 1000 (S754_infinity false) = None /\
  sumIterative 1000 (of_Z 9007199254740992) = None.
Proof.
  split.
  - apply (sumIterative_never_returns_from_pow53 (S754_infinity false) 1000).
    reflexivity.
  - apply (sumIterative_never_returns_from_pow53 (of_Z 9007199254740992) 1000).
    reflexivity.
Defined.

(** ** How many steps the loop takes *)

Lemma sumIterative_loop_short (fuel : nat) (n i : Z) (total : number) :
  0 <= n < 2 ^ 53 -> 1 <= i -> i + Z.of_nat fuel <= n + 1 ->
  sumIterative_loop fuel (of_Z n) (of_Z i) total = None.
Proof.
  intros Hn. revert i total. induction fuel as [|fuel IH]; intros i total Hi Hf.
  - reflexivity.
  - rewrite sumIterative_loop_S, leb_of_Z by lia.
    replace (i <=? n) with true by (symmetry; apply Z.leb_le; lia).
    rewrite add_of_Z by lia. apply IH; lia.
Qed.

Lemma sumIterative_loop_more_fuel (fuel k : nat) (n i total v : number) :
  sumIterative_loop fuel n i total = Some v ->
  sumIterative_loop (fuel + k) n i total = Some v.
Proof.
  revert i total. induction fuel as [|fuel IH]; intros i total; [discriminate|].
  change (S fuel + k)%nat with (S (fuel + k)). rewrite !sumIterative_loop_S.
  destruct (leb i n); [apply IH|auto].
Qed.

(** X2: on an integer bound [n] from 0 up to 2^53 - 1 the loop ends after
    exactly [n + 1] tests of its condition: a budget of [n] steps or fewer
    runs out, and every larger budget gives one and the same result. *)
Theorem sumIterative_steps (n : Z) (fuel : nat) :
  0 <= n < 2 ^ 53 ->
  (sumIterative fuel (of_Z n) = None <-> Z.of_nat fuel <= n) /\
  (forall fuel' : nat,
     n < Z.of_nat fuel -> n < Z.of_nat fuel' ->
     sumIterative fuel' (of_Z n) = sumIterative fuel (of_Z n)).
Proof.
  intros Hn. split.
  - split.
    + intros Hnone. destruct (Z.le_gt_cases (Z.of_nat fuel) n) as [|Hgt]; [assumption|].
      destruct (sumIterative_ends n fuel Hn Hgt) as [v Hv]. congruence.
    + intros Hle. apply sumIterative_loop_short; lia.
  - intros fuel' Hf Hf'.
    destruct (sumIterative_ends n fuel Hn Hf) as [v Hv].
    destruct (sumIterative_ends n fuel' Hn Hf') as [v' Hv'].
    unfold sumIterative in *.
    destruct (Nat.le_ge_cases fuel fuel') as [Hle|Hle].
    + rewrite Hv. replace fuel' with (fuel + (fuel' - fuel))%nat by lia.
      now apply sumIterative_loop_more_fuel.
    + rewrite Hv'. symmetry.
      replace fuel with (fuel' + (fuel - fuel'))%nat by lia.
      now apply sumIterative_loop_more_fuel.
Qed.

Lemma sumIterative_steps_witness :
  sumIterative 10 (of_Z 10) = None /\
  sumIterative 50 (of_Z 10) = sumIterative 11 (of_Z 10).
Proof.
  assert (Hn : 0 <= 10 < 2 ^ 53) by (split; [lia|reflexivity]).
  split.
  - destruct (sumIterative_steps 10 10 Hn) as [[_ H] _]. apply H. lia.
  - destruct (sumIterative_steps 10 11 Hn) as [_ H]. apply H; lia.
Defined.

(** ** Signs of what the strategies return *)

Lemma add_nonneg (x y : number) : nonneg x -> nonneg y -> nonneg (x + y)%num.
Proof.
  unfold add.
  destruct x as [sx|sx| |sx mx ex], y as [sy|sy| |sy my ey]; cbn [nonneg];
    intros Hx Hy; subst; try contradiction; try exact I; try reflexivity;
    try (destruct sx; exact I); try (destruct sy; exact I);
    try (destruct sx, sy; exact I).
  cbn [SFadd cond_Zopp]. apply signed_false_nonneg, normalize_nonneg. lia.
Qed.

Lemma of_Z_nonneg (z : Z) : 0 <= z -> nonneg (of_Z z).
Proof.
  intros H. unfold of_Z. apply signed_false_nonneg, normalize_nonneg. assumption.
Qed.

Lemma sumIterative_loop_nonneg (fuel : nat) (n : number) (i : Z) (total v : number) :
  1 <= i <= 2 ^ 53 -> nonneg total ->
  sumIterative_loop fuel n (of_Z i) total = Some v -> nonneg v.
Proof.
  revert i total. induction fuel as [|fuel IH]; intros i total Hi Ht; [discriminate|].
  rewrite sumIterative_loop_S. destruct (leb (of_Z i) n).
  - rewrite increment_of_Z by assumption. apply IH.
    + assert (1 < 2 ^ 53) by reflexivity. lia.
    + apply add_nonneg; [assumption|]. apply of_Z_nonneg. lia.
  - intros H. injection H as <-. assumption.
Qed.

(** X3: whatever the bound (negative, fractional, NaN, any Number), a result
    of the loop is never negative and never NaN. *)
Theorem sumIterative_result_nonneg (n : number) (fuel : nat) (v : number) :
  sumIterative fuel n = Some v -> (of_Z 0 <=? v)%num = true.
Proof.
  intros H. apply nonneg_leb.
  apply (sumIterative_loop_nonneg fuel n 1 (of_Z 0) v); try assumption.
  - assert (1 < 2 ^ 53) by reflexivity. lia.
  - exact I.
Qed.

Lemma sumIterative_result_nonneg_witness :
  (of_Z 0 <=? of_Z 0)%num = true /\ (of_Z 0 <=? of_Z 6)%num = true.
Proof.
  split.
  - apply (sumIterative_result_nonneg S754_nan 5 (of_Z 0)). reflexivity.
  - apply (sumIterative_result_nonneg (of_Z 7 / of_Z 2)%num 5 (of_Z 6)).
    vm_compute. reflexivity.
Defined.

Lemma mul_nonneg (x y : number) :
  nonneg x -> nonneg y ->
  match x with
  | S754_zero _ => is_finite y = true
  | S754_infinity _ => nonzero y
  | _ => True
  end ->
  nonneg (x * y)%num.
Proof.
  unfold mul.
  destruct x as [sx|sx| |sx mx ex], y as [sy|sy| |sy my ey]; cbn [nonneg];
    intros Hx Hy Hz; subst; try contradiction; try discriminate;
    try exact I; try reflexivity.
  cbn [SFmul xorb]. apply signed_false_nonneg, round_aux_signed. lia.
Qed.

(** X4: on every bound that is not negative (zero of either sign, fractions
    and Infinity included) the closed form returns a Number that is not
    negative and not NaN. *)
Theorem sumFormula_nonneg (n : number) :
  (of_Z 0 <=? n)%num = true -> (of_Z 0 <=? sumFormula n)%num = true.
Proof.
  intros Hn. apply nonneg_leb.
  assert (Hnn : nonneg n).
  { destruct n as [s|s| |s m e]; cbn in Hn |- *; try exact I;
      try discriminate; destruct s; (reflexivity || discriminate). }
  unfold sumFormula.
  change (of_Z 2) with (S754_finite false 4503599627370496 (-51)).
  apply div_nonneg. apply mul_nonneg; try assumption.
  - apply add_nonneg; [assumption|exact eq_refl].
  - destruct n as [s|s| |s m e]; cbn [nonneg] in Hnn; try contradiction;
      try exact I; reflexivity.
Qed.

Lemma sumFormula_nonneg_witness :
  (of_Z 0 <=? sumFormula (of_Z 7 / of_Z 2)%num)%num = true /\
  (of_Z 0 <=? sumFormula (S754_infinity false))%num = true.
Proof.
  split.
  - apply (sumFormula_nonneg (of_Z 7 / of_Z 2)%num). reflexivity.
  - apply (sumFormula_nonneg (S754_infinity false)). reflexivity.
Defined.

(** ** Negative integers *)

Lemma of_Z_opp (V : Z) : 0 < V <= 2 ^ 53 -> of_Z (- V) = rep true V.
Proof.
  intros H. unfold of_Z. destruct V as [|p|p]; try lia.
  cbn [Z.opp binary_normalize]. apply round_exact; try lia.
  - now apply representable_safe.
  - apply expo_bound. split; [lia|].
    apply Z.le_lt_trans with (2 ^ 53); [lia|reflexivity].
Qed.

Lemma add_rep_neg_pos (a b : Z) :
  0 < b < a -> a < 2 ^ 53 ->
  SFadd prec emax (rep true a) (rep false b) = rep true (a - b).
Proof.
  intros Hb Ha.
  pose proof (expo_small a ltac:(lia)) as Hea.
  pose proof (expo_small b ltac:(lia)) as Heb.
  unfold rep at 1 2. cbn [SFadd cond_Zopp].
  set (ez := Z.min (expo a) (expo b)).
  destruct (shl_align_spec (Z.to_pos (mant a)) (expo a) ez ltac:(lia)) as [Hfa _].
  destruct (shl_align_spec (Z.to_pos (mant b)) (expo b) ez ltac:(lia)) as [Hfb _].
  rewrite rep_mant in Hfa, Hfb by lia.
  rewrite <- Z.mul_assoc, <- Z.pow_add_r in Hfa, Hfb by lia.
  replace (- expo a + (expo a - ez)) with (- ez) in Hfa by lia.
  replace (- expo b + (expo b - ez)) with (- ez) in Hfb by lia.
  assert (HP : 0 < 2 ^ (- ez)) by (apply Z.pow_pos_nonneg; lia).
  destruct (- Zpos (fst (shl_align (Z.to_pos (mant a)) (expo a) ez))
            + Zpos (fst (shl_align (Z.to_pos (mant b)) (expo b) ez)))
    as [|q|q] eqn:Hq; try nia.
  cbn [binary_normalize]. apply round_exact; try lia.
  - apply representable_small. lia.
  - apply expo_bound. split; [lia|].
    apply Z.lt_trans with (2 ^ 53); [lia|reflexivity].
Qed.

Lemma mul_rep_signed (sa sb : bool) (a b : Z) :
  0 < a < 2 ^ 53 -> 0 < b < 2 ^ 53 -> representable (a * b) ->
  SFmul prec emax (rep sa a) (rep sb b) = rep (xorb sa sb) (a * b).
Proof.
  intros Ha Hb HR.
  pose proof (expo_small a Ha) as Hea. pose proof (expo_small b Hb) as Heb.
  unfold rep at 1 2. cbn [SFmul].
  apply round_aux_exact; try assumption; try lia.
  - apply expo_bound. split; [lia|].
    apply Z.lt_trans with (2 ^ 53 * 2 ^ 53); [|reflexivity].
    apply Z.mul_lt_mono_nonneg; lia.
  - pose proof (Z.log2_mul_below a b ltac:(lia) ltac:(lia)).
    unfold expo in *. lia.
  - rewrite Pos2Z.inj_mul, !rep_mant by assumption.
    replace (- (expo a + expo b)) with (- expo a + - expo b) by lia.
    rewrite Z.pow_add_r by lia. ring.
Qed.

Lemma sumFormula_negative (n : Z) :
  n <= -2 -> n * (n + 1) / 2 <= 2 ^ 53 ->
  sumFormula (of_Z n) = of_Z (n * (n + 1) / 2) /\ 0 < n * (n + 1) / 2.
Proof.
  intros Hn Hsafe.
  set (k := - n - 1).
  assert (Hk : 1 <= k) by lia.
  assert (Hprod : n * (n + 1) = k * (k + 1)) by (unfold k; ring).
  rewrite Hprod in *. fold (triangle k) in *.
  pose proof (safe_bound k ltac:(lia) Hsafe) as Hb.
  pose proof (triangle_ge k ltac:(lia)) as Hge.
  assert (H27 : 2 ^ 27 < 2 ^ 53) by reflexivity.
  split; [|lia].
  unfold sumFormula.
  replace n with (- (k + 1)) by (unfold k; lia).
  rewrite of_Z_opp by lia.
  rewrite (of_Z_small 1) by lia.
  unfold add. rewrite add_rep_neg_pos by lia.
  replace (k + 1 - 1) with k by lia.
  pose proof (consecutive_even k) as Hmod.
  assert (Heven : k * (k + 1) = 2 * triangle k)
    by (unfold triangle; apply Z.div_exact; [lia|assumption]).
  assert (HR : representable ((k + 1) * k)).
  { rewrite Z.mul_comm, Heven. apply representable_double, representable_safe. lia. }
  unfold mul. rewrite mul_rep_signed by (try assumption; lia).
  cbn [xorb]. rewrite (Z.mul_comm (k + 1) k) in *.
  rewrite (of_Z_small (triangle k)) by lia.
  apply rep_half; try assumption; try lia.
  assert (H54 : 2 ^ 54 = 2 * 2 ^ 53) by reflexivity.
  assert (H1024 : 2 ^ 54 < 2 ^ 1024) by reflexivity.
  pose proof (Z.log2_nonneg (k * (k + 1))).
  pose proof (expo_bound (k * (k + 1)) ltac:(lia)).
  unfold expo in *. lia.
Qed.

(** X5: on every integer [n <= -2] whose product n(n+1)/2 is a safe integer
    the closed form returns that positive value exactly, while the loop
    returns 0: the two strategies disagree on negative bounds, and the
    comparison [!==] of their results is true. *)
Theorem strategies_disagree_on_negatives (n : Z) (fuel : nat) :
  n <= -2 -> n * (n + 1) / 2 <= MAX_SAFE_INTEGER ->
  sumFormula (of_Z n) = of_Z (n * (n + 1) / 2) /\
  to_Z (sumFormula (of_Z n)) = Some (n * (n + 1) / 2) /\
  0 < n * (n + 1) / 2 /\
  sumIterative (S fuel) (of_Z n) = Some (of_Z 0) /\
  (of_Z 0 !== sumFormula (of_Z n))%num = true.
Proof.
  intros Hn Hsafe.
  assert (Hs : n * (n + 1) / 2 <= 2 ^ 53)
    by (unfold MAX_SAFE_INTEGER in Hsafe; change (2 ^ 53) with 9007199254740992; lia).
  destruct (sumFormula_negative n Hn Hs) as [Hf Hpos].
  rewrite Hf. repeat split.
  - apply to_Z_of_Z. lia.
  - assumption.
  - unfold sumIterative. rewrite sumIterative_loop_S.
    replace n with (- (- n)) by lia.
    assert (H53 : - n <= 2 ^ 53).
    { assert (Hle : - n - 1 <= n * (n + 1) / 2)
        by (apply Z.div_le_lower_bound; nia).
      unfold MAX_SAFE_INTEGER in Hsafe.
      change (2 ^ 53) with 9007199254740992. lia. }
    rewrite of_Z_opp by lia. reflexivity.
  - rewrite (of_Z_small (n * (n + 1) / 2)) by lia. reflexivity.
Qed.

Lemma strategies_disagree_on_negatives_witness :
  sumFormula (of_Z (-4)) = of_Z 6 /\
  sumIterative 1 (of_Z (-4)) = Some (of_Z 0) /\
  (of_Z 0 !== sumFormula (of_Z (-4)))%num = true.
Proof.
  assert (H1 : -4 <= -2) by lia.
  assert (H2 : -4 * (-4 + 1) / 2 <= MAX_SAFE_INTEGER) by (vm_compute; discriminate).
  destruct (strategies_disagree_on_negatives (-4) 0 H1 H2) as (Ha & _ & _ & Hb & Hc).
  repeat split; assumption.
Defined.

(** ** The whole run *)

Lemma logs_app (tr tr' : list Event) : logs (tr ++ tr') = (logs tr + logs tr')%nat.
Proof.
  induction tr as [|ev tr IH]; [reflexivity|].
  destruct ev; cbn [app logs]; rewrite IH; reflexivity.
Qed.

Lemma eqb_refl (x : number) : x <> S754_nan -> (x === x)%num = true.
Proof.
  unfold strict_eq, SFeqb.
  destruct x as [s|s| |s m e]; intros H; try reflexivity; try congruence.
  - destruct s; reflexivity.
  - cbn [SFcompare]. rewrite Z.compare_refl, Pos.compare_cont_refl.
    destruct s; reflexivity.
Qed.

Lemma sub_diag (c : number) : is_finite c = true -> (c - c)%num = S754_zero false.
Proof.
  destruct c as [s|s| |s m e]; try discriminate; intros _.
  - destruct s; reflexivity.
  - rewrite sub_finite, Z.sub_diag. reflexivity.
Qed.

Section RunFacts.

Context {Exn : Type}.
Variable NumberToString : number -> string.

Lemma forEach_callback_diverges (fuel : nat) (N : number) (w : World) :
  sumIterative fuel N = None ->
  forEach_callback (Exn := Exn) NumberToString fuel N w = Diverged.
Proof.
  intros Ha. unfold forEach_callback, bind at 1, console_log at 1.
  unfold bind at 1. rewrite measureExecTime_unfold.
  cbn [fn_body fn_name sumIterative_fn]. rewrite Ha. reflexivity.
Qed.

(** X6: the run over any list of bounds never throws; it returns when the
    loop ends on every bound within the budget, and otherwise does not return
    because the loop does not end on one of them. *)
Theorem forEach_outcome (l : list number) (fuel : nat) (w : World) :
  match forEach (Exn := Exn) l (forEach_callback NumberToString fuel) w with
  | Returned _ _ => Forall (fun N => sumIterative fuel N <> None) l
  | Diverged => Exists (fun N => sumIterative fuel N = None) l
  | Thrown _ _ => False
  end.
Proof.
  revert w. induction l as [|N l IH]; intro w.
  - cbn. constructor.
  - cbn [forEach]. unfold bind.
    destruct (sumIterative fuel N) as [a|] eqn:Ha.
    + rewrite (forEach_callback_returns NumberToString fuel N a w Ha).
      specialize (IH (mkWorld (clock w) (4 + reads w)
                              (trace w ++ block_events NumberToString w N a))).
      destruct (forEach l (forEach_callback NumberToString fuel) _) as [r w'|e w'|].
      * constructor; [congruence|assumption].
      * assumption.
      * now apply Exists_cons_tl.
    + rewrite (forEach_callback_diverges fuel N w Ha). now apply Exists_cons_hd.
Qed.

Lemma block_events_count (w : World) (N a : number) :
  logs (block_events NumberToString w N a) = 3%nat /\
  calls "sumIterative" (block_events NumberToString w N a) = 1%nat /\
  calls "sumFormula" (block_events NumberToString w N a) = 1%nat.
Proof. repeat split. Qed.

(** X7: a run that returns has left the timer as it was, and for every bound
    of the list, whatever the two results, it has taken exactly four timer
    readings, written exactly three lines and entered each strategy exactly
    once. *)
Theorem forEach_accounting (l : list number) (fuel : nat) (w w' : World) :
  forEach (Exn := Exn) l (forEach_callback NumberToString fuel) w = Returned tt w' ->
  clock w' = clock w /\
  reads w' = (reads w + 4 * List.length l)%nat /\
  logs (trace w') = (logs (trace w) + 3 * List.length l)%nat /\
  calls "sumIterative" (trace w') = (calls "sumIterative" (trace w) + List.length l)%nat /\
  calls "sumFormula" (trace w') = (calls "sumFormula" (trace w) + List.length l)%nat.
Proof.
  revert w. induction l as [|N l IH]; intro w.
  - cbn. intros H. injection H as <-. repeat split; lia.
  - cbn [forEach]. unfold bind.
    destruct (sumIterative fuel N) as [a|] eqn:Ha.
    + rewrite (forEach_callback_returns NumberToString fuel N a w Ha).
      intros H. apply IH in H. cbn [clock reads trace] in H.
      destruct (block_events_count w N a) as (Hl & Hi & Hf).
      rewrite logs_app, !calls_app, Hl, Hi, Hf in H.
      cbn [List.length]. repeat split; try tauto; lia.
    + rewrite (forEach_callback_diverges fuel N w Ha). discriminate.
Qed.


(** X9: whenever the loop ends on the bound within the budget and the timer
    gives one and the same finite reading [c] at the four readings of that
    bound, the callback returns and adds exactly these events: the header,
    [c], entry into sumIterative, [c], [c], entry into sumFormula, [c], the
    line "Time Difference: 0 seconds (Iterative is faster)" (0 as the script
    prints it), and the verdict.  Both durations are 0 and a tie is reported
    as Iterative being faster. *)
Theorem forEach_callback_tie (fuel : nat) (N a c : number) (w : World) :
  sumIterative fuel N = Some a ->
  is_finite c = true ->
  (forall j : nat, (j < 4)%nat -> clock w (j + reads w)%nat = c) ->
  exists w',
    forEach_callback (Exn := Exn) NumberToString fuel N w = Returned tt w' /\
    trace w'
    = trace w ++
      [EvLog (header_line NumberToString N);
       EvNow c; EvCall "sumIterative"; EvNow c;
       EvNow c; EvCall "sumFormula"; EvNow c;
       EvLog ("Time Difference: " ++ NumberToString (of_Z 0)
                ++ " seconds (Iterative is faster)");
       EvLog (if (a !== sumFormula N)%num
              then warning_line NumberToString a (sumFormula N)
              else consistent_line NumberToString a)].
Proof.
  intros Ha Hc Hclock.
  rewrite (forEach_callback_returns NumberToString fuel N a w Ha).
  eexists. split; [reflexivity|]. cbn [trace]. f_equal.
  unfold block_events.
  rewrite (Hclock 1%nat), (Hclock 2%nat), (Hclock 3%nat) by lia.
  change (clock w (reads w)) with (clock w (0 + reads w)%nat).
  rewrite (Hclock 0%nat) by lia.
  unfold timeDifference. rewrite (sub_diag c) by assumption.
  change ((S754_zero false / of_Z 1000)%num) with (S754_zero false).
  change ((S754_zero false - S754_zero false)%num) with (S754_zero false).
  reflexivity.
Qed.

End RunFacts.

Lemma forEach_accounting_witness :
  exists w',
    forEach (Exn := unit) [of_Z 3; of_Z 5] (forEach_callback text0 10) world0
    = Returned tt w' /\
    reads w' = 8%nat /\ logs (trace w') = 6%nat.
Proof.
  pose proof (forEach_accounting (Exn := unit) text0 [of_Z 3; of_Z 5] 10 world0) as H.
  destruct (forEach (Exn := unit) [of_Z 3; of_Z 5] (forEach_callback text0 10) world0)
    as [[] w'|e w'|] eqn:E.
  - exists w'. split; [reflexivity|].
    destruct (H w' eq_refl) as (_ & Hr & Hl & _). split; assumption.
  - vm_compute in E. discriminate.
  - vm_compute in E. discriminate.
Defined.


Lemma forEach_callback_tie_witness :
  exists w',
    forEach_callback (Exn := unit) text0 4 (of_Z 3)
      (mkWorld (fun _ => of_Z 17) 0 []) = Returned tt w' /\
    trace w'
    = [EvLog (header_line text0 (of_Z 3));
       EvNow (of_Z 17); EvCall "sumIterative"; EvNow (of_Z 17);
       EvNow (of_Z 17); EvCall "sumFormula"; EvNow (of_Z 17);
       EvLog "Time Difference: n seconds (Iterative is faster)";
       EvLog (consistent_line text0 (of_Z 6))].
Proof.
  apply (forEach_callback_tie (Exn := unit) text0 4 (of_Z 3) (of_Z 6) (of_Z 17)
           (mkWorld (fun _ => of_Z 17) 0 [])).
  - vm_compute. reflexivity.
  - reflexivity.
  - intros j _. reflexivity.
Defined.
